(** * vscode-yaml-languageservice: the YAML parser front end, the offset
      queries and the formatter, embedded and verified.

    The development follows the TypeScript sources:
    - [yamlParser.ts]: [recursivelyBuildAst], [parseYamlBoolean],
      [parseYamlInteger], [parseYamlFloat], [determineScalarType],
      [convertError], [parse];
    - [yamlFormatter.ts]: [format];
    - the node classes, the offset queries and the position calculator,
      which the sources import. *)

From Stdlib Require Import ZArith List Bool Ascii String Sorted Lia.
From Stdlib Require Floats.SpecFloat.
Import ListNotations.

Local Open Scope string_scope.
Local Open Scope Z_scope.

Set Implicit Arguments.
Set Warnings "-register-all".

(** ** JavaScript values the sources rely on

    A text is a [string], one character for each code unit; the code
    units are those below 256. *)

(** The double quote, which [`Invalid boolean "${input}"`] and its
    siblings put around the offending text. *)
Definition dquote : string := String (ascii_of_nat 34) EmptyString.

(** A line feed and the NUL character. *)
Definition LF : string := String (ascii_of_nat 10) EmptyString.
Definition NUL : string := String (ascii_of_nat 0) EmptyString.

(** A thrown value.  The scalar parsers [throw] a string; the engine
    itself raises a [TypeError] when a property of [undefined] is read
    or written. *)
Inductive Exception : Type :=
| Thrown (message : string)
| TypeError (what : string).

Inductive Completion (A : Type) : Type :=
| Normal (a : A)
| Abrupt (e : Exception).
Arguments Normal {A} a.
Arguments Abrupt {A} e.

(** A JavaScript number is a binary64 value, as the Standard Library
    specifies them in [SpecFloat]: NaN, the two infinities, the two zeros
    and the finite values [m * 2^e] with their sign. *)
Definition JSNumber : Type := SpecFloat.spec_float.

Abbreviation NaN := SpecFloat.S754_nan.
Abbreviation Infinity := (SpecFloat.S754_infinity false).
Abbreviation NegInfinity := (SpecFloat.S754_infinity true).

Definition isNaN (n : JSNumber) : bool :=
  match n with NaN => true | _ => false end.

(** The precision of binary64 and the exponent of its infinities. *)
Definition prec : Z := 53.
Definition emax : Z := 1024.

(** The Number value for an integer [n]: the binary64 value nearest to
    it, a tie going to the even mantissa and a magnitude too large to an
    infinity.  [negative] is the sign a zero gets.  (The literal is
    rounded as a whole, as the engines do; the standard would let them
    drop the digits after the twentieth.) *)
Definition NumberOfInteger (negative : bool) (n : Z) : JSNumber :=
  SpecFloat.binary_normalize prec emax n 0 negative.

(** The Number value for the decimal [m * 10^e] with [0 <= m], taken
    negative when [negative] is set: rounded once, from the exact
    quotient when [e] is negative. *)
Definition NumberOfDecimal (negative : bool) (m e : Z) : JSNumber :=
  if 0 <=? e then
    NumberOfInteger negative ((if negative then -1 else 1) * (m * 10 ^ e))
  else if m =? 0 then SpecFloat.S754_zero negative
  else
    let '(q, e2, l) :=
      SpecFloat.SFdiv_core_binary prec emax m 0 (10 ^ (- e)) 0 in
    SpecFloat.binary_round_aux prec emax negative q e2 l.

(** [Array.prototype.indexOf] and [lastIndexOf] on an array of strings,
    compared with [===]; [-1] when the element is missing.  A [null]
    element sought is never found among strings. *)
Fixpoint indexOfFrom (i : Z) (xs : list string) (x : string) : Z :=
  match xs with
  | [] => -1
  | y :: ys => if String.eqb y x then i else indexOfFrom (i + 1) ys x
  end.

Definition indexOf (xs : list string) (x : option string) : Z :=
  match x with
  | None => -1
  | Some s => indexOfFrom 0 xs s
  end.

Fixpoint lastIndexOfFrom (i : Z) (xs : list string) (x : string) : Z :=
  match xs with
  | [] => -1
  | y :: ys =>
      let later := lastIndexOfFrom (i + 1) ys x in
      if 0 <=? later then later else if String.eqb y x then i else -1
  end.

Definition lastIndexOf (xs : list string) (x : string) : Z :=
  lastIndexOfFrom 0 xs x.

Definition charCode (c : ascii) : Z := Z.of_nat (nat_of_ascii c).

(** Whether [s] begins with [needle]. *)
Fixpoint startsWith (needle s : string) : bool :=
  match needle, s with
  | EmptyString, _ => true
  | String _ _, EmptyString => false
  | String a needle', String c s' =>
      (charCode c =? charCode a) && startsWith needle' s'
  end.

(** [input.lastIndexOf(needle, 0)]: searching backwards from position 0
    can only find [needle] at position 0. *)
Definition String_lastIndexOf0 (input needle : string) : Z :=
  if startsWith needle input then 0 else -1.

(** [input.substring(n)]. *)
Fixpoint substring_from (n : nat) (s : string) : string :=
  match n, s with
  | O, _ => s
  | S k, EmptyString => EmptyString
  | S k, String _ r => substring_from k r
  end.

(** *** Character classes *)

Definition in_range (lo hi : ascii) (c : ascii) : bool :=
  (charCode lo <=? charCode c) && (charCode c <=? charCode hi).

Definition is_char (a : ascii) (c : ascii) : bool := charCode c =? charCode a.

Definition isDigit : ascii -> bool := in_range "0" "9".
Definition isOctal : ascii -> bool := in_range "0" "7".
Definition isHex (c : ascii) : bool :=
  in_range "0" "9" c || in_range "a" "f" c || in_range "A" "F" c.
Definition isSign (c : ascii) : bool := is_char "-" c || is_char "+" c.

(** The white space and the line terminators that [parseInt] and
    [parseFloat] skip, among the code units below 256: TAB, LF, VT, FF,
    CR, SP and the no-break space. *)
Definition isWhiteSpace (c : ascii) : bool :=
  (charCode c =? 9) || (charCode c =? 10) || (charCode c =? 11) || (charCode c =? 12)
  || (charCode c =? 13) || (charCode c =? 32) || (charCode c =? 160).

(** The value of a digit in a radix up to 36 ([None] when the character
    is no digit of that radix). *)
Definition digitValue (radix : Z) (c : ascii) : option Z :=
  let v :=
    if in_range "0" "9" c then charCode c - 48
    else if in_range "a" "z" c then charCode c - 87
    else if in_range "A" "Z" c then charCode c - 55
    else 36 in
  if v <? radix then Some v else None.

Fixpoint trimStart (s : string) : string :=
  match s with
  | String c r => if isWhiteSpace c then trimStart r else s
  | EmptyString => s
  end.

(** The longest run of digits of [radix] at the head of [s]: the number
    read so far, how many digits were read, and what is left. *)
Fixpoint readDigits (radix : Z) (s : string) (acc : Z) (n : nat)
  : Z * nat * string :=
  match s with
  | String c r =>
      match digitValue radix c with
      | Some v => readDigits radix r (acc * radix + v) (S n)
      | None => (acc, n, s)
      end
  | EmptyString => (acc, n, s)
  end.

(** *** [parseInt(string, radix)] *)

Definition stripHexPrefix (s : string) : option string :=
  match s with
  | String z (String x r) =>
      if is_char "0" z && (is_char "x" x || is_char "X" x)
      then Some r else None
  | _ => None
  end.

(** An optional sign at the head of a text: whether it is a minus, and
    what follows it. *)
Definition stripSign (s : string) : bool * string :=
  match s with
  | String c r =>
      if is_char "-" c then (true, r)
      else if is_char "+" c then (false, r)
      else (false, s)
  | EmptyString => (false, s)
  end.

Definition parseInt (input : string) (radix : option Z) : JSNumber :=
  let s := trimStart input in
  let '(neg, s) := stripSign s in
  let sign := if neg then -1 else 1 in
  let R := match radix with Some r => r | None => 0 end in
  if negb (R =? 0) && ((R <? 2) || (36 <? R)) then NaN
  else
    let '(R, s) :=
      if (R =? 0) || (R =? 16) then
        match stripHexPrefix s with
        | Some r => (16, r)
        | None => ((if R =? 0 then 10 else R), s)
        end
      else (R, s) in
    let '(v, n, _) := readDigits R s 0 O in
    match n with
    | O => NaN
    | S _ => NumberOfInteger neg (sign * v)
    end.

(** *** [parseFloat(string)] *)

(** [ExponentPart]: [e] or [E], an optional sign and at least one digit;
    otherwise the exponent is not part of the literal. *)
Definition readExponent (s : string) : Z :=
  match s with
  | String c r =>
      if is_char "e" c || is_char "E" c then
        let '(neg, r) := stripSign r in
        let '(v, n, _) := readDigits 10 r 0 O in
        match n with O => 0 | S _ => if neg then - v else v end
      else 0
  | EmptyString => 0
  end.

(** The longest prefix that is a [StrUnsignedDecimalLiteral] other than
    [Infinity]: the number its digits denote and the power of ten that
    goes with it. *)
Definition readDecimal (s : string) : option (Z * Z) :=
  let '(ip, ni, r1) := readDigits 10 s 0 O in
  let '(m, nf, r2) :=
    match r1 with
    | String c r =>
        if is_char "." c then readDigits 10 r ip O else (ip, O, r1)
    | EmptyString => (ip, O, r1)
    end in
  match ni, nf with
  | O, O => None
  | _, _ => Some (m, readExponent r2 - Z.of_nat nf)
  end.

Definition parseFloat (input : string) : JSNumber :=
  let s := trimStart input in
  let '(neg, s) := stripSign s in
  if startsWith "Infinity" s then (if neg then NegInfinity else Infinity)
  else
    match readDecimal s with
    | None => NaN
    | Some (m, e) => NumberOfDecimal neg m e
    end.

(** *** Regular expressions

    The literals of the sources are all of the form [/^...$/]: a test
    succeeds when the whole text is in the language.  Matching is by
    derivatives. *)
Inductive regex : Type :=
| Void
| Eps
| Class (p : ascii -> bool)
| Cat (r1 r2 : regex)
| Alt (r1 r2 : regex)
| Star (r : regex).

Definition Opt (r : regex) : regex := Alt r Eps.
Definition Plus (r : regex) : regex := Cat r (Star r).

Fixpoint Lit (s : string) : regex :=
  match s with
  | EmptyString => Eps
  | String c r => Cat (Class (is_char c)) (Lit r)
  end.

Fixpoint nullable (r : regex) : bool :=
  match r with
  | Void => false
  | Eps => true
  | Class _ => false
  | Cat r1 r2 => nullable r1 && nullable r2
  | Alt r1 r2 => nullable r1 || nullable r2
  | Star _ => true
  end.

Fixpoint deriv (c : ascii) (r : regex) : regex :=
  match r with
  | Void => Void
  | Eps => Void
  | Class p => if p c then Eps else Void
  | Cat r1 r2 =>
      if nullable r1
      then Alt (Cat (deriv c r1) r2) (deriv c r2)
      else Cat (deriv c r1) r2
  | Alt r1 r2 => Alt (deriv c r1) (deriv c r2)
  | Star r1 => Cat (deriv c r1) (Star r1)
  end.

(** [regex.test(text)] for an anchored literal. *)
Fixpoint test (r : regex) (text : string) : bool :=
  match text with
  | EmptyString => nullable r
  | String c s => test (deriv c r) s
  end.

(** ** The tokenizer's node graph ([yaml-ast-parser]) *)

Module Yaml.

(** A scalar: its span, its text ([null] for an empty scalar) and the
    quoting flags.  [singleQuoted] is read as [node['singleQuoted']] and
    counts as false when it is missing. *)
Record YAMLScalar : Type := {
  startPosition : Z;
  endPosition : Z;
  value : option string;
  doubleQuoted : bool;
  plainScalar : bool;
  singleQuoted : bool
}.

(** A node, by [kind]: [MAP], [MAPPING], [SEQ], [SCALAR], [ANCHOR_REF]
    and [INCLUDE_REF].  The positions are [startPosition] and
    [endPosition].  The [mappings] of a map are typed as mappings, which
    the builder takes on trust (an unchecked cast).  The value of a
    mapping may be missing, and so may an item of a sequence: the
    tokenizer puts [null] where an entry is empty. *)
Inductive YAMLNode : Type :=
| YamlMap (startPosition endPosition : Z) (mappings : list YAMLNode)
| YAMLMapping (startPosition endPosition : Z) (key : YAMLScalar)
    (value : option YAMLNode)
| YAMLSequence (startPosition endPosition : Z)
    (items : list (option YAMLNode))
| Scalar (instance : YAMLScalar)
| YAMLAnchorReference (startPosition endPosition : Z)
    (referencesAnchor : string)
| IncludeRef (startPosition endPosition : Z).

Definition nodeStart (n : YAMLNode) : Z :=
  match n with
  | YamlMap s _ _ | YAMLMapping s _ _ _ | YAMLSequence s _ _
  | YAMLAnchorReference s _ _ | IncludeRef s _ => s
  | Scalar i => startPosition i
  end.

Definition nodeEnd (n : YAMLNode) : Z :=
  match n with
  | YamlMap _ e _ | YAMLMapping _ e _ _ | YAMLSequence _ e _
  | YAMLAnchorReference _ e _ | IncludeRef _ e => e
  | Scalar i => endPosition i
  end.

Record Mark : Type := { position : Z; buffer : string }.

Record YAMLException : Type := {
  reason : string;
  message : string;
  mark : Mark
}.

(** What [safeLoad] hands back: the root node with the diagnostics the
    tokenizer collected on it. *)
Record YAMLDocument : Type := {
  node : YAMLNode;
  errors : list YAMLException
}.

End Yaml.

(** ** Scalars: [yamlParser.ts] *)

Definition template (prefix input : string) : string :=
  prefix ++ dquote ++ input ++ dquote.

Definition parseYamlBoolean (input : string) : Completion bool :=
  if 0 <=? lastIndexOf ["true"; "True"; "TRUE"] input then Normal true
  else if 0 <=? lastIndexOf ["false"; "False"; "FALSE"] input then Normal false
  else Abrupt (Thrown (template "Invalid boolean " input)).

Definition safeParseYamlInteger (input : string) : JSNumber :=
  if String_lastIndexOf0 input "0o" =? 0
  then parseInt (substring_from 2 input) (Some 8)
  else parseInt input None.

Definition parseYamlInteger (input : string) : Completion JSNumber :=
  let result := safeParseYamlInteger input in
  if isNaN result then Abrupt (Thrown (template "Invalid integer " input))
  else Normal result.

(** [/^([-+])?(?:\.inf|\.Inf|\.INF)$/] *)
Definition infinitySpellings : regex :=
  Alt (Lit ".inf") (Alt (Lit ".Inf") (Lit ".INF")).

Definition infinity : regex := Cat (Opt (Class isSign)) infinitySpellings.

(** The first group of [infinity] after a successful [exec]: the sign
    that opens the text, if there is one. *)
Definition group1 (input : string) : option ascii :=
  match input with
  | String c _ => if isSign c then Some c else None
  | EmptyString => None
  end.

Definition parseYamlFloat (input : string) : Completion JSNumber :=
  if 0 <=? lastIndexOf [".nan"; ".NaN"; ".NAN"] input then Normal NaN
  else if test infinity input then
    match group1 input with
    | Some c => if is_char "-" c then Normal NegInfinity else Normal Infinity
    | None => Normal Infinity
    end
  else
    let result := parseFloat input in
    if negb (isNaN result) then Normal result
    else Abrupt (Thrown (template "Invalid float " input)).

Module ScalarType.
Inductive t : Type := null | bool | int | float | string.
End ScalarType.

(** [/^[-+]?[0-9]+$/], [/^0o[0-7]+$/], [/^0x[0-9a-fA-F]+$/] *)
Definition base10 : regex := Cat (Opt (Class isSign)) (Plus (Class isDigit)).
Definition base8 : regex := Cat (Lit "0o") (Plus (Class isOctal)).
Definition base16 : regex := Cat (Lit "0x") (Plus (Class isHex)).

(** The [float] literal of [determineScalarType]: an optional sign; then
    either a dot and digits, or digits with an optional dot and further
    digits; then an optional exponent of [e] or [E], an optional sign and
    digits. *)
Definition float : regex :=
  Cat (Opt (Class isSign))
    (Cat (Alt (Cat (Lit ".") (Plus (Class isDigit)))
              (Cat (Plus (Class isDigit))
                   (Opt (Cat (Lit ".") (Star (Class isDigit))))))
         (Opt (Cat (Class (fun c => is_char "e" c || is_char "E" c))
                   (Cat (Opt (Class isSign)) (Plus (Class isDigit)))))).

(** [node] is [None] for the [undefined] the function guards against. *)
Definition determineScalarType (node : option Yaml.YAMLScalar) : ScalarType.t :=
  match node with
  | None => ScalarType.null
  | Some node =>
      if Yaml.doubleQuoted node || negb (Yaml.plainScalar node)
         || Yaml.singleQuoted node
      then ScalarType.string
      else
        let value := Yaml.value node in
        if 0 <=? indexOf ["null"; "Null"; "NULL"; "~"] value
        then ScalarType.null
        else
          match value with
          | None => ScalarType.null
          | Some text =>
              if 0 <=? indexOf ["true"; "True"; "TRUE";
                                "false"; "False"; "FALSE"] value
              then ScalarType.bool
              else if test base10 text || test base8 text || test base16 text
              then ScalarType.int
              else if test float text || test infinity text
                      || (0 <=? indexOf [".nan"; ".NaN"; ".NAN"] value)
              then ScalarType.float
              else ScalarType.string
          end
  end.

(** A plain (unquoted) scalar with the given text. *)
Definition plain (s e : Z) (text : String.string) : Yaml.YAMLScalar :=
  {| Yaml.startPosition := s; Yaml.endPosition := e;
     Yaml.value := Some text; Yaml.doubleQuoted := false;
     Yaml.plainScalar := true; Yaml.singleQuoted := false |}.

(** A double-quoted scalar with the given text. *)
Definition quoted (s e : Z) (text : String.string) : Yaml.YAMLScalar :=
  {| Yaml.startPosition := s; Yaml.endPosition := e;
     Yaml.value := Some text; Yaml.doubleQuoted := true;
     Yaml.plainScalar := false; Yaml.singleQuoted := false |}.

(** ** The node tree ([jsonParser.ts] of the JSON language service) *)

(** Modelled from the spec: the node classes of the JSON parser, which
    the sources import and construct.  A node has a [type], a half-open
    span, a [parent] back-reference and the [location] its container
    gives it; an object owns properties, a property a key and a value,
    an array its items.  Objects are told apart by identity, so every
    [new] draws a fresh [NodeId] and [parent] names the parent by it.
    A property starts where its key starts and adopts the key: the key's
    parent becomes the property and, as the tests read the path of a key
    as the name of the property, its location becomes its own text. *)
Definition NodeId : Type := nat.

Inductive Segment : Type :=
| Name (s : string)
| Index (i : Z).

Record ASTHeader : Type := {
  self : NodeId;
  parent : option NodeId;
  location : option Segment;
  start : Z;
  end_ : Z
}.

Inductive ASTNode : Type :=
| ObjectASTNode (h : ASTHeader) (properties : list ASTNode)
| PropertyASTNode (h : ASTHeader) (key : ASTNode) (value : ASTNode)
| ArrayASTNode (h : ASTHeader) (items : list ASTNode)
| StringASTNode (h : ASTHeader) (isKey : bool) (value : option string)
| NumberASTNode (h : ASTHeader) (isInteger : bool) (value : JSNumber)
| BooleanASTNode (h : ASTHeader) (value : bool)
| NullASTNode (h : ASTHeader).

Definition header (n : ASTNode) : ASTHeader :=
  match n with
  | ObjectASTNode h _ | PropertyASTNode h _ _ | ArrayASTNode h _
  | StringASTNode h _ _ | NumberASTNode h _ _ | BooleanASTNode h _
  | NullASTNode h => h
  end.

Definition type (n : ASTNode) : string :=
  match n with
  | ObjectASTNode _ _ => "object"
  | PropertyASTNode _ _ _ => "property"
  | ArrayASTNode _ _ => "array"
  | StringASTNode _ _ _ => "string"
  | NumberASTNode _ _ _ => "number"
  | BooleanASTNode _ _ => "boolean"
  | NullASTNode _ => "null"
  end.

Definition getChildNodes (n : ASTNode) : list ASTNode :=
  match n with
  | ObjectASTNode _ properties => properties
  | PropertyASTNode _ key value => [key; value]
  | ArrayASTNode _ items => items
  | _ => []
  end.

Definition withHeader (f : ASTHeader -> ASTHeader) (n : ASTNode) : ASTNode :=
  match n with
  | ObjectASTNode h ps => ObjectASTNode (f h) ps
  | PropertyASTNode h k v => PropertyASTNode (f h) k v
  | ArrayASTNode h xs => ArrayASTNode (f h) xs
  | StringASTNode h k v => StringASTNode (f h) k v
  | NumberASTNode h i v => NumberASTNode (f h) i v
  | BooleanASTNode h v => BooleanASTNode (f h) v
  | NullASTNode h => NullASTNode (f h)
  end.

(** [node.location = l] and [node.parent = p]. *)
Definition setLocation (l : option Segment) : ASTNode -> ASTNode :=
  withHeader (fun h =>
    {| self := self h; parent := parent h; location := l;
       start := start h; end_ := end_ h |}).

Definition setParent (p : option NodeId) : ASTNode -> ASTNode :=
  withHeader (fun h =>
    {| self := self h; parent := p; location := location h;
       start := start h; end_ := end_ h |}).

(** ** Building the tree: a state and exception monad

    The state is the next free [NodeId]; a computation ends normally with
    a value or abruptly with what was thrown. *)
Definition Build (A : Type) : Type := NodeId -> Completion (A * NodeId).

Definition ret {A : Type} (a : A) : Build A := fun next => Normal (a, next).

Definition bind {A B : Type} (c : Build A) (k : A -> Build B) : Build B :=
  fun next =>
    match c next with
    | Normal (a, next') => k a next'
    | Abrupt e => Abrupt e
    end.

Definition throw {A : Type} (e : Exception) : Build A := fun _ => Abrupt e.

Definition lift {A : Type} (c : Completion A) : Build A :=
  fun next =>
    match c with
    | Normal a => Normal (a, next)
    | Abrupt e => Abrupt e
    end.

Declare Scope build_scope.
Delimit Scope build_scope with build.
Notation "x <- c ;; k" := (bind c (fun x => k))
  (at level 61, c at next level, right associativity) : build_scope.
Local Open Scope build_scope.

(** [new ...ASTNode(parent, name, start, end)]: the common part of every
    constructor. *)
Definition new (parent : option NodeId) (name : option Segment)
    (start end_ : Z) : Build ASTHeader :=
  fun next =>
    Normal ({| self := next; parent := parent; location := name;
               start := start; end_ := end_ |}, S next).

Definition nameOf (text : option string) : option Segment :=
  option_map Name text.

(** The message of the engine when [x.location = ...] meets an [x] that
    is [undefined]. *)
Definition cannotSetLocation : Exception :=
  TypeError "Cannot set property 'location' of undefined".

(** [addProperty] appends the property.  An absent one is not appended;
    the builder only meets that when an entry of [mappings] is no mapping,
    which the typing of the tokenizer rules out. *)
Definition addProperty (properties : list ASTNode) (p : option ASTNode)
  : list ASTNode :=
  match p with
  | Some n => (properties ++ [n])%list
  | None => properties
  end.

(** The loop over the [mappings] of a map: each is built and added as a
    property. *)
Definition forEachMapping (build : Yaml.YAMLNode -> Build (option ASTNode))
  : list Yaml.YAMLNode -> list ASTNode -> Build (list ASTNode) :=
  fix each (mappings : list Yaml.YAMLNode) (properties : list ASTNode) :=
    match mappings with
    | [] => ret properties
    | mapping :: rest =>
        p <- build mapping ;;
        each rest (addProperty properties p)
    end.

(** [if (!node) return;] at the head of the builder: nothing is built
    for a node that is not there. *)
Definition whenPresent (build : Yaml.YAMLNode -> Build (option ASTNode))
    (node : option Yaml.YAMLNode) : Build (option ASTNode) :=
  match node with
  | None => ret None
  | Some node => build node
  end.

(** The loop over the [items] of a sequence: each is built, given the
    running [count] as its location, and added. *)
Definition forEachItem
    (build : option Yaml.YAMLNode -> Build (option ASTNode))
  : list (option Yaml.YAMLNode) -> Z -> list ASTNode -> Build (list ASTNode) :=
  fix each (items : list (option Yaml.YAMLNode)) (count : Z)
      (children : list ASTNode) :=
    match items with
    | [] => ret children
    | item :: rest =>
        itemNode <- build item ;;
        match itemNode with
        | None => throw cannotSetLocation
        | Some itemNode =>
            each rest (count + 1)
              (children ++ [setLocation (Some (Index count)) itemNode])%list
        end
    end.

(** The scalar case: classify, then construct the matching leaf. *)
Definition buildScalar (parent : option NodeId) (instance : Yaml.YAMLScalar)
  : Build (option ASTNode) :=
  let type := determineScalarType (Some instance) in
  (* The name is set either by the sequence or the mapping case. *)
  let name := None in
  let value := Yaml.value instance in
  let startPosition := Yaml.startPosition instance in
  let endPosition := Yaml.endPosition instance in
  match type, value with
  | ScalarType.null, _ =>
      h <- new parent name startPosition endPosition ;;
      ret (Some (NullASTNode h))
  | ScalarType.bool, Some text =>
      b <- lift (parseYamlBoolean text) ;;
      h <- new parent name startPosition endPosition ;;
      ret (Some (BooleanASTNode h b))
  | ScalarType.int, Some text =>
      h <- new parent name startPosition endPosition ;;
      v <- lift (parseYamlInteger text) ;;
      ret (Some (NumberASTNode h true v))
  | ScalarType.float, Some text =>
      h <- new parent name startPosition endPosition ;;
      v <- lift (parseYamlFloat text) ;;
      ret (Some (NumberASTNode h false v))
  | ScalarType.string, _ =>
      h <- new parent name startPosition endPosition ;;
      ret (Some (StringASTNode h false value))
  (* [bool], [int] and [float] are only chosen for a text *)
  | _, None => throw (TypeError "scalar without a text")
  end.

(** The body of [recursivelyBuildAst] for a node that is there. *)
Fixpoint buildNode (parent : option NodeId) (node : Yaml.YAMLNode)
    {struct node} : Build (option ASTNode) :=
  match node with
  | Yaml.YamlMap startPosition endPosition mappings =>
      result <- new parent None startPosition endPosition ;;
      properties <-
        forEachMapping (buildNode (Some (self result))) mappings [] ;;
      ret (Some (ObjectASTNode result properties))
  | Yaml.YAMLMapping startPosition endPosition key value =>
      keyNode <- new None None (Yaml.startPosition key) (Yaml.endPosition key) ;;
      (* the property starts at its key; [result.end] is assigned next *)
      result <- new parent None (start keyNode) endPosition ;;
      let keyNode :=
        setLocation (nameOf (Yaml.value key))
          (setParent (Some (self result))
             (StringASTNode keyNode true (Yaml.value key))) in
      valueNode <-
        match value with
        | Some v => buildNode (Some (self result)) v
        | None =>
            h <- new parent (nameOf (Yaml.value key))
                   startPosition endPosition ;;
            ret (Some (NullASTNode h))
        end ;;
      match valueNode with
      | None => throw cannotSetLocation
      | Some valueNode =>
          let valueNode := setLocation (nameOf (Yaml.value key)) valueNode in
          ret (Some (PropertyASTNode result keyNode valueNode))
      end
  | Yaml.YAMLSequence startPosition endPosition items =>
      result <- new parent None startPosition endPosition ;;
      children <-
        forEachItem (whenPresent (buildNode (Some (self result)))) items 0 [] ;;
      ret (Some (ArrayASTNode result children))
  | Yaml.Scalar instance => buildScalar parent instance
  | Yaml.YAMLAnchorReference _ _ _ | Yaml.IncludeRef _ _ =>
      (* Issue Warning *)
      ret None
  end.

Definition recursivelyBuildAst (parent : option NodeId)
    (node : option Yaml.YAMLNode) : Build (option ASTNode) :=
  whenPresent (buildNode parent) node.

(** ** [parse] and its diagnostics *)

Inductive ErrorCode : Type := Undefined.

(** The [location] of a diagnostic; [convertError] puts the error code
    here, the root check puts it beside the location. *)
Record Location : Type := {
  loc_start : Z;
  loc_end : Z;
  loc_code : option ErrorCode
}.

Record IProblem : Type := {
  message : string;
  code : option ErrorCode;
  problem_location : Location
}.

Record JSONDocumentConfig : Type := { disallowComments : bool }.

Record JSONDocument : Type := {
  config : option JSONDocumentConfig;
  root : option ASTNode;
  errors : list IProblem;
  warnings : list IProblem
}.

Definition convertError (e : Yaml.YAMLException) : IProblem :=
  (* Subtract 2 because \n\0 is added by the parser *)
  let bufferLength :=
    Z.of_nat (String.length (Yaml.buffer (Yaml.mark e))) - 2 in
  {| message := Yaml.message e;
     code := None;
     problem_location :=
       {| loc_start := Z.min (Yaml.position (Yaml.mark e)) (bufferLength - 1);
          loc_end := bufferLength;
          loc_code := Some Undefined |} |}.

Definition duplicateKeyReason : string := "duplicate key".

Definition expectedYaml (yamlDoc : Yaml.YAMLNode) : IProblem :=
  {| message := "Expected a YAML object, array or literal";
     code := Some Undefined;
     problem_location :=
       {| loc_start := Yaml.nodeStart yamlDoc;
          loc_end := Yaml.nodeEnd yamlDoc;
          loc_code := None |} |}.

Section Tokenizer.

(** [Yaml.safeLoad(text, {})]: the tokenizer, which may throw and may
    hand back [undefined]. *)
Variable safeLoad : string -> Completion (option Yaml.YAMLDocument).

Definition parse (text : string) (config : option JSONDocumentConfig)
  : Completion JSONDocument :=
  match safeLoad text with
  | Abrupt e => Abrupt e
  | Normal yamlDoc =>
  match recursivelyBuildAst None (option_map (@Yaml.node) yamlDoc) O with
  | Abrupt e => Abrupt e
  | Normal (root, _) =>
      match yamlDoc with
      | None =>
          (* [root] is absent, and [yamlDoc.startPosition] is read *)
          Abrupt (TypeError "Cannot read property 'startPosition' of undefined")
      | Some yamlDoc =>
          let missing :=
            match root with
            | None => [expectedYaml (Yaml.node yamlDoc)]
            | Some _ => []
            end in
          let errors :=
            map convertError
              (filter (fun e => negb (String.eqb (Yaml.reason e) duplicateKeyReason))
                      (Yaml.errors yamlDoc)) in
          let warnings :=
            map convertError
              (filter (fun e => String.eqb (Yaml.reason e) duplicateKeyReason)
                      (Yaml.errors yamlDoc)) in
          Normal {| config := config;
                    root := root;
                    errors := (missing ++ errors)%list;
                    warnings := warnings |}
      end
  end
  end.

End Tokenizer.

(** ** Offset queries *)

(** Modelled from the spec: [contains], the test both offset queries
    apply to a node.  A node matches when the offset falls in its
    half-open span, and in end-inclusive mode also when the offset
    equals its end. *)
Definition contains (node : ASTNode) (offset : Z) (includeRightBound : bool)
  : bool :=
  (start (header node) <=? offset) && (offset <? end_ (header node))
  || includeRightBound && (offset =? end_ (header node)).

(** Modelled from the spec: the descent shared by [getNodeFromOffset] and
    [getNodeFromOffsetEndInclusive].  A node that does not match yields
    nothing; a node that matches yields what its first child with a
    result yields (the children are tried before the parent is accepted),
    and itself when no child has one. *)
Fixpoint findNode (includeRightBound : bool) (offset : Z) (node : ASTNode)
    {struct node} : option ASTNode :=
  if contains node offset includeRightBound then
    let item :=
      match node with
      | ObjectASTNode _ children | ArrayASTNode _ children =>
          (fix scan (cs : list ASTNode) : option ASTNode :=
             match cs with
             | [] => None
             | c :: rest =>
                 match findNode includeRightBound offset c with
                 | Some item => Some item
                 | None => scan rest
                 end
             end) children
      | PropertyASTNode _ key value =>
          match findNode includeRightBound offset key with
          | Some item => Some item
          | None => findNode includeRightBound offset value
          end
      | _ => None
      end in
    match item with
    | Some item => Some item
    | None => Some node
    end
  else None.

(** Modelled from the spec: the exclusive and the end-inclusive query of a
    node, and of a document (which has no node to offer without a root). *)
Definition getNodeFromOffset (node : ASTNode) (offset : Z) : option ASTNode :=
  findNode false offset node.

Definition getNodeFromOffsetEndInclusive (node : ASTNode) (offset : Z)
  : option ASTNode :=
  findNode true offset node.

Definition JSONDocument_getNodeFromOffset (doc : JSONDocument) (offset : Z)
  : option ASTNode :=
  match root doc with
  | Some r => getNodeFromOffset r offset
  | None => None
  end.

Definition JSONDocument_getNodeFromOffsetEndInclusive (doc : JSONDocument)
    (offset : Z) : option ASTNode :=
  match root doc with
  | Some r => getNodeFromOffsetEndInclusive r offset
  | None => None
  end.

(** ** The position calculator ([documentPositionCalculator.ts]) *)

(** Modelled from the spec: [insertionPointReturnValue], the encoding of
    "would insert before index [pt]" as a negative number. *)
Definition insertionPointReturnValue (pt : Z) : Z := (- pt) - 1.

(** Its inverse, which recovers the insertion point. *)
Definition insertionPoint (returnValue : Z) : Z := - (returnValue + 1).

(** [array[i]], with [0] standing for what lies outside the array (the
    loop never looks there). *)
Definition item (array : list Z) (i : Z) : Z := nth (Z.to_nat i) array 0.

Definition size (array : list Z) : Z := Z.of_nat (List.length array).

(** Modelled from the spec: [binarySearch] over an ascending array.  The
    loop halves the range [lower..upper]; a hit returns its index, and an
    empty range returns the encoded insertion point.  The range has at
    most [fuel] elements. *)
Fixpoint binarySearchLoop (fuel : nat) (array : list Z) (sought : Z)
    (lower upper : Z) : Z :=
  match fuel with
  | O => insertionPointReturnValue lower
  | S fuel =>
      if upper <? lower then insertionPointReturnValue lower
      else
        let idx := (lower + upper) / 2 in
        let value := item array idx in
        if value =? sought then idx
        else if value <? sought
        then binarySearchLoop fuel array sought (idx + 1) upper
        else binarySearchLoop fuel array sought lower (idx - 1)
  end.

Definition binarySearch (array : list Z) (sought : Z) : Z :=
  binarySearchLoop (List.length array) array sought 0 (size array - 1).

(** ** The formatter ([yamlFormatter.ts]) *)

Record Position : Type := { line : Z; character : Z }.
Record Range : Type := { range_start : Position; range_end : Position }.
Record TextEdit : Type := { range : Range; newText : string }.
Record FormattingOptions : Type := { tabSize : Z; insertSpaces : bool }.

(** [array.map(f)] for a callback that may throw: the first exception
    ends the loop. *)
Fixpoint mapCompletion {A B : Type} (f : A -> Completion B) (xs : list A)
  : Completion (list B) :=
  match xs with
  | [] => Normal []
  | x :: rest =>
      match f x with
      | Abrupt e => Abrupt e
      | Normal y =>
          match mapCompletion f rest with
          | Abrupt e => Abrupt e
          | Normal ys => Normal (y :: ys)
          end
      end
  end.

(** [array.join(separator)]. *)
Fixpoint join (separator : string) (xs : list string) : string :=
  match xs with
  | [] => ""
  | [x] => x
  | x :: rest => x ++ separator ++ join separator rest
  end.

Section Formatter.

(** The values of [js-yaml], its [loadAll] (which collects the documents
    of a stream in order, or throws) and [safeDump] (which throws on a
    value it has no safe form for); the line end of the platform; and
    [positionAt] of the text document. *)
Variable Value : Type.
Variable loadAll : string -> Completion (list Value).
Variable safeDump : Value -> Z -> Completion string.
Variable EOL : string.
Variable positionAt : string -> Z -> Position.

Definition format (text : string) (options : FormattingOptions)
  : Completion (list TextEdit) :=
  match loadAll text with
  | Abrupt e => Abrupt e
  | Normal documents =>
      let newText :=
        match documents with
        | [yaml] => safeDump yaml (tabSize options)
        | _ =>
            match
              mapCompletion (fun d => safeDump d (tabSize options)) documents
            with
            | Abrupt e => Abrupt e
            | Normal formatted =>
                Normal ("%YAML 1.2" ++ EOL ++ "---" ++ EOL
                        ++ join ("..." ++ EOL ++ "---" ++ EOL) formatted
                        ++ "..." ++ EOL)
            end
        end in
      match newText with
      | Abrupt e => Abrupt e
      | Normal newText =>
          Normal
            [ {| range :=
                   {| range_start := {| line := 0; character := 0 |};
                      range_end :=
                        positionAt text (Z.of_nat (String.length text)) |};
                 newText := newText |} ]
      end
  end.

End Formatter.

(** The text of the single replacement [format] returns. *)
Definition replacement (edits : Completion (list TextEdit)) : option string :=
  match edits with
  | Normal [edit] => Some (newText edit)
  | _ => None
  end.

(** Texts put one after the other. *)
Fixpoint concatAll (xs : list string) : string :=
  match xs with
  | [] => ""
  | x :: rest => x ++ concatAll rest
  end.

(** The frame the formatter puts around one document of a stream. *)
Definition frame (EOL body : string) : string :=
  "---" ++ EOL ++ body ++ "..." ++ EOL.

(** ** Notions the statements below are written in *)

(** The first result a function has on the elements of a list. *)
Fixpoint firstSome {A B : Type} (f : A -> option B) (xs : list A) : option B :=
  match xs with
  | [] => None
  | x :: rest =>
      match f x with
      | Some b => Some b
      | None => firstSome f rest
      end
  end.

(** The first non-empty result a function has on the elements of a
    list. *)
Fixpoint firstPath {A B : Type} (f : A -> list B) (xs : list A) : list B :=
  match xs with
  | [] => []
  | x :: rest => match f x with [] => firstPath f rest | path => path end
  end.

(** The nodes the descent of [findNode] goes through, the queried node
    first and the node it returns last. *)
Fixpoint findPath (includeRightBound : bool) (offset : Z) (node : ASTNode)
    {struct node} : list ASTNode :=
  if contains node offset includeRightBound then
    node ::
      match node with
      | ObjectASTNode _ children | ArrayASTNode _ children =>
          (fix scan (cs : list ASTNode) : list ASTNode :=
             match cs with
             | [] => []
             | c :: rest =>
                 match findPath includeRightBound offset c with
                 | [] => scan rest
                 | path => path
                 end
             end) children
      | PropertyASTNode _ key value =>
          match findPath includeRightBound offset key with
          | [] => findPath includeRightBound offset value
          | path => path
          end
      | _ => []
      end
  else [].

(** No node ends after the node that contains it. *)
Fixpoint endsNested (node : ASTNode) : bool :=
  match node with
  | ObjectASTNode h children | ArrayASTNode h children =>
      forallb (fun c => (end_ (header c) <=? end_ h) && endsNested c) children
  | PropertyASTNode h key value =>
      (end_ (header key) <=? end_ h) && endsNested key
      && (end_ (header value) <=? end_ h) && endsNested value
  | _ => true
  end.

(** [String.prototype.toLowerCase] on ASCII letters. *)
Definition lowerChar (c : ascii) : ascii :=
  if in_range "A" "Z" c then ascii_of_nat (nat_of_ascii c + 32) else c.

Fixpoint toLowerCase (s : string) : string :=
  match s with
  | EmptyString => EmptyString
  | String c r => String (lowerChar c) (toLowerCase r)
  end.

(** The texts a regular expression accepts. *)
Inductive Matches : regex -> string -> Prop :=
| MatchesEps : Matches Eps ""
| MatchesClass (p : ascii -> bool) (c : ascii) :
    p c = true -> Matches (Class p) (String c "")
| MatchesCat (r1 r2 : regex) (s1 s2 : string) :
    Matches r1 s1 -> Matches r2 s2 -> Matches (Cat r1 r2) (s1 ++ s2)
| MatchesAltL (r1 r2 : regex) (s : string) :
    Matches r1 s -> Matches (Alt r1 r2) s
| MatchesAltR (r1 r2 : regex) (s : string) :
    Matches r2 s -> Matches (Alt r1 r2) s
| MatchesStarNil (r : regex) : Matches (Star r) ""
| MatchesStarCons (r : regex) (s1 s2 : string) :
    Matches r s1 -> Matches (Star r) s2 -> Matches (Star r) (s1 ++ s2).

Fixpoint allChars (p : ascii -> bool) (s : string) : bool :=
  match s with
  | EmptyString => true
  | String c r => p c && allChars p r
  end.

(** How many digits [readDigits] has counted. *)
Definition digitCount (x : Z * nat * string) : nat := snd (fst x).

(** The test [parse] sorts the diagnostics by. *)
Definition isDuplicateKey (e : Yaml.YAMLException) : bool :=
  String.eqb (Yaml.reason e) duplicateKeyReason.

(** A node the builder has a node for: anything but a reference. *)
Definition present (n : Yaml.YAMLNode) : bool :=
  match n with
  | Yaml.YAMLAnchorReference _ _ _ | Yaml.IncludeRef _ _ => false
  | _ => true
  end.

(** A node graph the builder gets through: at any depth, every item of
    a sequence is there and no reference, and no value of a mapping is a
    reference. *)
Fixpoint buildable (n : Yaml.YAMLNode) : bool :=
  match n with
  | Yaml.YamlMap _ _ mappings => forallb buildable mappings
  | Yaml.YAMLMapping _ _ _ value =>
      match value with
      | Some v => present v && buildable v
      | None => true
      end
  | Yaml.YAMLSequence _ _ items =>
      forallb (fun item =>
                 match item with
                 | Some n => present n && buildable n
                 | None => false
                 end) items
  | _ => true
  end.

(** The spellings the sources list. *)
Definition nullSpellings : list string := ["null"; "Null"; "NULL"; "~"].
Definition trueSpellings : list string := ["true"; "True"; "TRUE"].
Definition falseSpellings : list string := ["false"; "False"; "FALSE"].
Definition nanSpellings : list string := [".nan"; ".NaN"; ".NAN"].
Definition infSpellings : list string := [".inf"; ".Inf"; ".INF"].

(** A scalar the tokenizer marks as plain. *)
Definition isPlain (node : Yaml.YAMLScalar) : bool :=
  negb (Yaml.doubleQuoted node) && Yaml.plainScalar node
  && negb (Yaml.singleQuoted node).

(** ** Inputs the examples below run on *)

(** The map [{a: 1, b: }] (in block style, [b]'s value elided). *)
Definition mapWithElidedValue : Yaml.YAMLNode :=
  Yaml.YamlMap 0 9
    [Yaml.YAMLMapping 0 4 (plain 0 1 "a") (Some (Yaml.Scalar (plain 3 4 "1")));
     Yaml.YAMLMapping 5 7 (plain 5 6 "b") None].

(** The sequence [[&a 1, *a]]: a scalar that carries an anchor, and an
    alias of that anchor, for which the tokenizer has a reference node. *)
Definition sequenceWithAlias : Yaml.YAMLDocument :=
  {| Yaml.node :=
       Yaml.YAMLSequence 0 10
         [Some (Yaml.Scalar (plain 4 5 "1"));
          Some (Yaml.YAMLAnchorReference 7 9 "a")];
     Yaml.errors := [] |}.

(** A block sequence whose only entry is empty: the tokenizer has no
    node for the entry and puts [null] among the items. *)
Definition sequenceWithEmptyEntry : Yaml.YAMLDocument :=
  {| Yaml.node := Yaml.YAMLSequence 0 3 [None];
     Yaml.errors := [] |}.

(** A diagnostic of the tokenizer: its message is the reason after the
    prefix [JS-YAML: ], followed by the place in the text; its buffer is
    the text with the line feed and the NUL the tokenizer adds. *)
Definition diagnostic (reason place : string) (position : Z) (text : string)
  : Yaml.YAMLException :=
  {| Yaml.reason := reason;
     Yaml.message := "JS-YAML: " ++ reason ++ " " ++ place;
     Yaml.mark := {| Yaml.position := position;
                     Yaml.buffer := text ++ LF ++ NUL |} |}.

(** The two lines [a: 1] and [a: 2]. *)
Definition repeatedKeyText : string := "a: 1" ++ LF ++ "a: 2".

(** What the tokenizer makes of them: a map of two mappings with the same
    key, and the repeated key reported at each of the two keys. *)
Definition duplicateKeys : Yaml.YAMLDocument :=
  {| Yaml.node :=
       Yaml.YamlMap 0 9
         [Yaml.YAMLMapping 0 4 (plain 0 1 "a")
            (Some (Yaml.Scalar (plain 3 4 "1")));
          Yaml.YAMLMapping 5 9 (plain 5 6 "a")
            (Some (Yaml.Scalar (plain 8 9 "2")))];
     Yaml.errors :=
       [ diagnostic "duplicate key" "at line 2, column 1" 5 repeatedKeyText;
         diagnostic "duplicate key" "at line 1, column 1" 0 repeatedKeyText ] |}.

(** The two lines [a: &x 1] and [a: *x]: the key is repeated, and the
    second value is an alias, for which the tokenizer has a reference
    node. *)
Definition repeatedKeyAliasText : string := "a: &x 1" ++ LF ++ "a: *x".

Definition duplicateKeysWithAlias : Yaml.YAMLDocument :=
  {| Yaml.node :=
       Yaml.YamlMap 0 13
         [Yaml.YAMLMapping 0 7 (plain 0 1 "a")
            (Some (Yaml.Scalar (plain 6 7 "1")));
          Yaml.YAMLMapping 8 13 (plain 8 9 "a")
            (Some (Yaml.YAMLAnchorReference 11 13 "x"))];
     Yaml.errors :=
       [ diagnostic "duplicate key" "at line 2, column 1" 8
           repeatedKeyAliasText;
         diagnostic "duplicate key" "at line 1, column 1" 0
           repeatedKeyAliasText ] |}.

(** The text [[] (an unbalanced bracket): an empty sequence and the
    diagnostic the tokenizer raises where the text ends. *)
Definition unbalancedBracket : Yaml.YAMLDocument :=
  {| Yaml.node := Yaml.YAMLSequence 0 1 [];
     Yaml.errors :=
       [ diagnostic "unexpected end of the stream within a flow collection"
           "at line 2, column 1" 2 "[" ] |}.

(** The mapping [{'a':true,'b':1}] in flow style. *)
Definition flowMapping : Yaml.YAMLNode :=
  Yaml.YamlMap 0 16
    [Yaml.YAMLMapping 1 9 (quoted 1 4 "a")
       (Some (Yaml.Scalar (plain 5 9 "true")));
     Yaml.YAMLMapping 10 15 (quoted 10 13 "b")
       (Some (Yaml.Scalar (plain 14 15 "1")))].

(** The tree the builder makes of a node graph, when it makes one. *)
Definition treeOf (n : Yaml.YAMLNode) : option ASTNode :=
  match recursivelyBuildAst None (Some n) O with
  | Normal (Some tree, _) => Some tree
  | _ => None
  end.

(** A query on a tree that may be missing. *)
Definition query (q : ASTNode -> Z -> option ASTNode) (tree : option ASTNode)
    (offset : Z) : option ASTNode :=
  match tree with
  | Some t => q t offset
  | None => None
  end.

(** What a test reads off a node: its type, its span and the identities
    of the node and of its parent. *)
Definition describe (n : option ASTNode)
  : option (string * Z * Z * NodeId * option NodeId) :=
  match n with
  | Some n =>
      Some (type n, start (header n), end_ (header n), self (header n),
            parent (header n))
  | None => None
  end.

(** The tree the builder makes of [flowMapping]. *)
Definition flowTree : ASTNode :=
  Eval vm_compute in
    match treeOf flowMapping with
    | Some tree => tree
    | None => NullASTNode {| self := O; parent := None; location := None;
                             start := 0; end_ := 0 |}
    end.

(** Its first property, [a], and the key and the value of that. *)
Definition flowPropertyA : ASTNode := nth 0 (getChildNodes flowTree) flowTree.
Definition flowKeyA : ASTNode := nth 0 (getChildNodes flowPropertyA) flowTree.
Definition flowValueA : ASTNode := nth 1 (getChildNodes flowPropertyA) flowTree.

(** A stream without documents, as [loadAll] reports an empty text. *)
Definition noDocuments (text : string) : Completion (list string) :=
  Normal [].

(** ** Notions for the further properties *)

(** Where the node built for a node of the graph starts: a property
    starts at its key, every other node where its source starts. *)
Definition builtStart (n : Yaml.YAMLNode) : Z :=
  match n with
  | Yaml.YAMLMapping _ _ key _ => Yaml.startPosition key
  | _ => Yaml.nodeStart n
  end.

(** The message [parse] ends with when the tokenizer hands back nothing. *)
Definition cannotReadStartPosition : Exception :=
  TypeError "Cannot read property 'startPosition' of undefined".

(** The text of the key of a mapping of the graph, and of a property of
    the tree. *)
Definition mappingKey (n : Yaml.YAMLNode) : option (option string) :=
  match n with
  | Yaml.YAMLMapping _ _ key _ => Some (Yaml.value key)
  | _ => None
  end.

Definition propertyKey (n : ASTNode) : option (option string) :=
  match n with
  | PropertyASTNode _ (StringASTNode _ true text) _ => Some text
  | _ => None
  end.

Definition isMapping (n : Yaml.YAMLNode) : bool :=
  match n with
  | Yaml.YAMLMapping _ _ _ _ => true
  | _ => false
  end.

(** The location a property gives its value. *)
Definition valueLocation (n : ASTNode) : option (option Segment) :=
  match n with
  | PropertyASTNode _ _ value => Some (location (header value))
  | _ => None
  end.

(** Whether a node names the node with the header [h] as its parent, and
    whether two nodes name the same parent. *)
Definition childOf (h : ASTHeader) (c : ASTNode) : bool :=
  match parent (header c) with
  | Some i => Nat.eqb i (self h)
  | None => false
  end.

Definition sameParent (a b : ASTHeader) : bool :=
  match parent a, parent b with
  | Some i, Some j => Nat.eqb i j
  | None, None => true
  | _, _ => false
  end.

(** The properties of an object against the mappings they were built
    from (a mapping that is a reference has no property), and the
    children of an array against the items they were built from. *)
Definition followMappings (follow : Yaml.YAMLNode -> ASTNode -> bool)
    (h : ASTHeader) : list Yaml.YAMLNode -> list ASTNode -> bool :=
  fix each (mappings : list Yaml.YAMLNode) (properties : list ASTNode) :=
    match mappings with
    | [] => match properties with [] => true | _ => false end
    | m :: mappings' =>
        if present m then
          match properties with
          | c :: properties' =>
              childOf h c && follow m c && each mappings' properties'
          | [] => false
          end
        else each mappings' properties
    end.

Definition followItems (follow : Yaml.YAMLNode -> ASTNode -> bool)
    (h : ASTHeader) : list (option Yaml.YAMLNode) -> list ASTNode -> bool :=
  fix each (items : list (option Yaml.YAMLNode)) (children : list ASTNode) :=
    match items, children with
    | [], [] => true
    | Some item :: items', c :: children' =>
        childOf h c && follow item c && each items' children'
    | _, _ => false
    end.

(** The parent back-references of the tree built from a node graph.
    Every node names the node that holds it: a property its object, an
    item its array, a key and a value that is written out their
    property.  The [null] leaf that stands for a value that is elided
    names the parent of its property instead, and not the property. *)
Fixpoint parentsFollow (n : Yaml.YAMLNode) (node : ASTNode) {struct n}
  : bool :=
  match n, node with
  | Yaml.YamlMap _ _ mappings, ObjectASTNode h properties =>
      followMappings parentsFollow h mappings properties
  | Yaml.YAMLMapping _ _ _ value, PropertyASTNode h key v =>
      childOf h key
      && match value with
         | Some x => childOf h v && parentsFollow x v
         | None =>
             match v with NullASTNode _ => true | _ => false end
             && sameParent (header v) h && negb (childOf h v)
         end
  | Yaml.YAMLSequence _ _ items, ArrayASTNode h children =>
      followItems parentsFollow h items children
  | Yaml.Scalar _, ObjectASTNode _ _ => false
  | Yaml.Scalar _, PropertyASTNode _ _ _ => false
  | Yaml.Scalar _, ArrayASTNode _ _ => false
  | Yaml.Scalar _, _ => true
  | _, _ => false
  end.

(** In the graph, no node ends after the node that contains it. *)
Fixpoint graphEndsNested (n : Yaml.YAMLNode) : bool :=
  match n with
  | Yaml.YamlMap _ e mappings =>
      forallb (fun c => (Yaml.nodeEnd c <=? e) && graphEndsNested c) mappings
  | Yaml.YAMLSequence _ e items =>
      forallb (fun item =>
                 match item with
                 | Some c => (Yaml.nodeEnd c <=? e) && graphEndsNested c
                 | None => true
                 end) items
  | Yaml.YAMLMapping _ e key value =>
      (Yaml.endPosition key <=? e)
      && match value with
         | Some v => (Yaml.nodeEnd v <=? e) && graphEndsNested v
         | None => true
         end
  | _ => true
  end.

(** The value of a digit in any radix up to sixteen, and the number a
    run of digits denotes in a radix. *)
Definition digit (c : ascii) : Z :=
  if in_range "0" "9" c then charCode c - 48
  else if in_range "a" "f" c then charCode c - 87
  else charCode c - 55.

Fixpoint numeral (radix : Z) (s : string) : Z :=
  match s with
  | EmptyString => 0
  | String c r =>
      digit c * radix ^ Z.of_nat (String.length r) + numeral radix r
  end.

(** A number that is exactly the integer [n]: a zero for [0], and else
    the finite value of the sign of [n] whose mantissa, scaled by its
    exponent, is the magnitude of [n]. *)
Definition exactly (n : Z) (number : JSNumber) : Prop :=
  match number with
  | SpecFloat.S754_zero _ => n = 0
  | SpecFloat.S754_finite negative m e =>
      e <= 0 /\ (if negative then - Z.pos m else Z.pos m) = n * 2 ^ (- e)
  | _ => False
  end.

(** The map of the two lines [a: ~] and [b:]: a [null] that is written
    out and a value that is elided. *)
Definition mapWithNulls : Yaml.YAMLNode :=
  Yaml.YamlMap 0 9
    [Yaml.YAMLMapping 0 4 (plain 0 1 "a") (Some (Yaml.Scalar (plain 3 4 "~")));
     Yaml.YAMLMapping 5 7 (plain 5 6 "b") None].

(** A run of [n] zeros. *)
Fixpoint zeros (n : nat) : string :=
  match n with
  | O => ""
  | S k => String "0" (zeros k)
  end.

(** The [type] of the leaf built for a scalar of a given scalar type. *)
Definition leafType (t : ScalarType.t) : string :=
  match t with
  | ScalarType.null => "null"
  | ScalarType.bool => "boolean"
  | ScalarType.int | ScalarType.float => "number"
  | ScalarType.string => "string"
  end.

(** The sequence [[1, [true, ~], 'x']] in flow style. *)
Definition nestedSequence : Yaml.YAMLNode :=
  Yaml.YAMLSequence 0 18
    [Some (Yaml.Scalar (plain 1 2 "1"));
     Some (Yaml.YAMLSequence 4 13
             [Some (Yaml.Scalar (plain 5 9 "true"));
              Some (Yaml.Scalar (plain 11 12 "~"))]);
     Some (Yaml.Scalar (quoted 14 17 "x"))].

(** A stream of the two documents [a] and [b], dumped as they are. *)
Definition twoDocuments (text : string) : Completion (list string) :=
  Normal ["a: 1" ++ LF; "b: 2" ++ LF].

(** A dump that has a text for the first of them only. *)
Definition onlyFirstDumps (d : string) (indent : Z) : Completion string :=
  if String.eqb d ("a: 1" ++ LF) then Normal d
  else Abrupt (Thrown "unacceptable kind of an object to dump").

(** * Properties *)

Unset Implicit Arguments.

(** ** Array membership *)

Lemma indexOfFrom_found (xs : list string) (x : string) (i : Z) :
  0 <= i -> (0 <=? indexOfFrom i xs x) = true <-> In x xs.
Proof.
  revert i; induction xs as [|y ys IH]; intros i Hi; simpl.
  - split; [discriminate | tauto].
  - destruct (String.eqb y x) eqn:E.
    + apply String.eqb_eq in E. split; intros _; [auto | now apply Z.leb_le].
    + apply String.eqb_neq in E. rewrite IH by lia. tauto.
Qed.

Lemma indexOf_found (xs : list string) (x : string) :
  (0 <=? indexOf xs (Some x)) = true <-> In x xs.
Proof. apply indexOfFrom_found; lia. Qed.

Lemma lastIndexOfFrom_found (xs : list string) (x : string) (i : Z) :
  0 <= i -> (0 <=? lastIndexOfFrom i xs x) = true <-> In x xs.
Proof.
  revert i; induction xs as [|y ys IH]; intros i Hi; simpl.
  - split; [discriminate | tauto].
  - specialize (IH (i + 1) ltac:(lia)).
    destruct (0 <=? lastIndexOfFrom (i + 1) ys x) eqn:L.
    + rewrite L. split; intros _; [right; now apply IH | reflexivity].
    + destruct (String.eqb y x) eqn:E.
      * apply String.eqb_eq in E.
        split; intros _; [auto | now apply Z.leb_le].
      * apply String.eqb_neq in E. split; [discriminate|].
        intros [H|H]; [contradiction|]. apply IH in H. discriminate.
Qed.

Lemma lastIndexOf_found (xs : list string) (x : string) :
  (0 <=? lastIndexOf xs x) = true <-> In x xs.
Proof. apply lastIndexOfFrom_found; lia. Qed.

Lemma lastIndexOf_missing (xs : list string) (x : string) :
  (0 <=? lastIndexOf xs x) = false <-> ~ In x xs.
Proof.
  rewrite <- lastIndexOf_found. destruct (0 <=? lastIndexOf xs x); split;
    congruence.
Qed.

Lemma indexOf_missing (xs : list string) (x : string) :
  (0 <=? indexOf xs (Some x)) = false <-> ~ In x xs.
Proof.
  rewrite <- indexOf_found. destruct (0 <=? indexOf xs (Some x)); split;
    congruence.
Qed.

(** ** [parseYamlBoolean] *)

(** C9. [parseYamlBoolean] returns [true] for exactly the texts [true],
    [True] and [TRUE], returns [false] for exactly [false], [False] and
    [FALSE], and for every other text throws the message
    [Invalid boolean "<text>"]; [yes] and [no] are among the texts it
    rejects. *)
Theorem parseYamlBoolean_exact (input : string) :
  (parseYamlBoolean input = Normal true <-> In input trueSpellings)
  /\ (parseYamlBoolean input = Normal false <-> In input falseSpellings)
  /\ (parseYamlBoolean input
        = Abrupt (Thrown (template "Invalid boolean " input))
      <-> ~ In input (trueSpellings ++ falseSpellings))
  /\ parseYamlBoolean "yes"
       = Abrupt (Thrown ("Invalid boolean " ++ dquote ++ "yes" ++ dquote))
  /\ parseYamlBoolean "no"
       = Abrupt (Thrown ("Invalid boolean " ++ dquote ++ "no" ++ dquote)).
Proof.
  unfold parseYamlBoolean.
  fold trueSpellings falseSpellings.
  destruct (0 <=? lastIndexOf trueSpellings input) eqn:T.
  - apply lastIndexOf_found in T.
    assert (F : ~ In input falseSpellings).
    { intros F. simpl in T, F. intuition (subst; discriminate). }
    split; [tauto|]. split; [split; [discriminate | tauto]|].
    split; [|split; reflexivity].
    split; [discriminate|]. intros H; exfalso; apply H, in_or_app; auto.
  - apply lastIndexOf_missing in T.
    destruct (0 <=? lastIndexOf falseSpellings input) eqn:F.
    + apply lastIndexOf_found in F.
      split; [split; [discriminate | tauto]|]. split; [tauto|].
      split; [|split; reflexivity].
      split; [discriminate|]. intros H; exfalso; apply H, in_or_app; auto.
    + apply lastIndexOf_missing in F.
      split; [split; [discriminate | tauto]|].
      split; [split; [discriminate | tauto]|].
      split; [|split; reflexivity].
      split; [|reflexivity]. intros _ H. apply in_app_or in H. tauto.
Qed.

(** ** [determineScalarType] *)

(** C3. A scalar whose quoting metadata marks it as double-quoted,
    single-quoted or not plain is classified as [string], whatever its
    text. *)
Theorem determineScalarType_quoted (node : Yaml.YAMLScalar) :
  Yaml.doubleQuoted node = true \/ Yaml.plainScalar node = false
    \/ Yaml.singleQuoted node = true ->
  determineScalarType (Some node) = ScalarType.string.
Proof.
  intros H. unfold determineScalarType.
  destruct (Yaml.doubleQuoted node), (Yaml.plainScalar node),
    (Yaml.singleQuoted node); simpl; try reflexivity.
  destruct H as [H|[H|H]]; discriminate.
Qed.

Lemma determineScalarType_quoted_true :
  determineScalarType (Some (quoted 0 6 "true")) = ScalarType.string.
Proof.
  apply (determineScalarType_quoted (quoted 0 6 "true")).
  left; reflexivity.
Defined.

Lemma isPlain_flags (node : Yaml.YAMLScalar) :
  isPlain node = true ->
  (Yaml.doubleQuoted node || negb (Yaml.plainScalar node)
   || Yaml.singleQuoted node) = false.
Proof.
  unfold isPlain.
  destruct (Yaml.doubleQuoted node), (Yaml.plainScalar node),
    (Yaml.singleQuoted node); simpl; congruence.
Qed.

(** The classification of a plain scalar, rule by rule. *)
Lemma determineScalarType_plain (node : Yaml.YAMLScalar) :
  isPlain node = true ->
  determineScalarType (Some node) =
    match Yaml.value node with
    | None => ScalarType.null
    | Some text =>
        if 0 <=? indexOf nullSpellings (Some text) then ScalarType.null
        else if 0 <=? indexOf (trueSpellings ++ falseSpellings) (Some text)
        then ScalarType.bool
        else if test base10 text || test base8 text || test base16 text
        then ScalarType.int
        else if test float text || test infinity text
                || (0 <=? indexOf nanSpellings (Some text))
        then ScalarType.float
        else ScalarType.string
    end.
Proof.
  intros P. unfold determineScalarType. rewrite (isPlain_flags _ P).
  destruct (Yaml.value node) as [text|]; reflexivity.
Qed.

(** C7, as the code has it.  For a plain scalar the type is [null] when
    the text is exactly one of [null], [Null], [NULL] and [~] (or there is
    no text), and [bool] exactly when the text is one of [true], [True],
    [TRUE], [false], [False] and [FALSE]; other letter cases are not
    recognised. *)
Theorem determineScalarType_null_bool (node : Yaml.YAMLScalar)
    (text : string) :
  isPlain node = true ->
  Yaml.value node = Some text ->
  (In text nullSpellings ->
     determineScalarType (Some node) = ScalarType.null)
  /\ (determineScalarType (Some node) = ScalarType.null ->
        In text nullSpellings)
  /\ (In text (trueSpellings ++ falseSpellings) <->
        determineScalarType (Some node) = ScalarType.bool).
Proof.
  intros P V. rewrite (determineScalarType_plain _ P), V.
  destruct (0 <=? indexOf nullSpellings (Some text)) eqn:N.
  - apply indexOf_found in N. repeat split; auto; try discriminate.
    intros B. simpl in N, B.
    intuition (subst; discriminate).
  - apply indexOf_missing in N.
    destruct (0 <=? indexOf (trueSpellings ++ falseSpellings) (Some text))
      eqn:B.
    + apply indexOf_found in B. repeat split; auto; try tauto; discriminate.
    + apply indexOf_missing in B.
      repeat split; try tauto;
        destruct (test base10 text || test base8 text || test base16 text);
        try discriminate;
        destruct (test float text || test infinity text
                  || (0 <=? indexOf nanSpellings (Some text)));
        try discriminate; tauto.
Qed.

Lemma determineScalarType_null_bool_witness :
  determineScalarType (Some (plain 0 1 "~")) = ScalarType.null
  /\ determineScalarType (Some (plain 0 5 "False")) = ScalarType.bool.
Proof.
  split.
  - apply (determineScalarType_null_bool (plain 0 1 "~") "~");
      [reflexivity | reflexivity | simpl; auto].
  - apply (determineScalarType_null_bool (plain 0 5 "False") "False"); [reflexivity | reflexivity | simpl; auto 10].
Defined.

(** C7, as stated, fails: [nULL] is [null] up to letter case and [tRUE] is
    [true] up to letter case, yet both plain scalars are classified as
    [string]. *)
Lemma determineScalarType_other_case :
  toLowerCase "nULL" = "null"
  /\ determineScalarType (Some (plain 0 4 "nULL")) = ScalarType.string
  /\ toLowerCase "tRUE" = "true"
  /\ determineScalarType (Some (plain 0 4 "tRUE")) = ScalarType.string.
Proof. repeat split; vm_compute; reflexivity. Qed.

(** ** Characters *)

Lemma charCode_inj (a c : ascii) : charCode a = charCode c -> a = c.
Proof.
  unfold charCode. intros H. apply Nat2Z.inj in H.
  rewrite <- (ascii_nat_embedding a), <- (ascii_nat_embedding c).
  now rewrite H.
Qed.

Lemma is_char_eq (a c : ascii) : is_char a c = true -> c = a.
Proof. unfold is_char. intros H. apply Z.eqb_eq in H. now apply charCode_inj. Qed.

(** ** Regular expressions: what a successful [test] tells *)

Lemma nullable_matches (r : regex) : nullable r = true -> Matches r "".
Proof.
  induction r; simpl; intros H; try discriminate.
  - constructor.
  - apply andb_true_iff in H as [H1 H2].
    change "" with ("" ++ ""). constructor; auto.
  - apply orb_true_iff in H as [H|H];
      [apply MatchesAltL | apply MatchesAltR]; auto.
  - constructor.
Qed.

Lemma deriv_matches (c : ascii) (r : regex) (s : string) :
  Matches (deriv c r) s -> Matches r (String c s).
Proof.
  revert s; induction r; simpl; intros s H.
  - inversion H.
  - inversion H.
  - destruct (p c) eqn:P; inversion H; subst. now constructor.
  - destruct (nullable r1) eqn:N.
    + inversion H; subst.
      * match goal with M : Matches (Cat _ _) _ |- _ => inversion M; subst end.
        change (String c (s1 ++ s2)) with (String c s1 ++ s2).
        constructor; auto.
      * change (String c s) with ("" ++ String c s).
        constructor; auto using nullable_matches.
    + inversion H; subst.
      change (String c (s1 ++ s2)) with (String c s1 ++ s2).
      constructor; auto.
  - inversion H; subst; [apply MatchesAltL | apply MatchesAltR]; auto.
  - inversion H; subst.
    change (String c (s1 ++ s2)) with (String c s1 ++ s2).
    constructor; auto.
Qed.

Lemma test_matches (r : regex) (s : string) :
  test r s = true -> Matches r s.
Proof.
  revert r; induction s as [|c s IH]; simpl; intros r H.
  - now apply nullable_matches.
  - now apply deriv_matches, IH.
Qed.

Lemma matches_lit (t s : string) : Matches (Lit t) s -> s = t.
Proof.
  revert s; induction t as [|c t IH]; simpl; intros s H.
  - now inversion H.
  - inversion H; subst.
    match goal with M : Matches (Class _) _ |- _ => inversion M; subst end.
    match goal with E : is_char _ _ = true |- _ =>
      apply is_char_eq in E; subst end.
    simpl. f_equal. auto.
Qed.

Lemma matches_star_class (p : ascii -> bool) (r : regex) (s : string) :
  Matches r s -> r = Star (Class p) -> allChars p s = true.
Proof.
  induction 1; intros E; try discriminate; [reflexivity|].
  injection E as ->.
  match goal with M : Matches (Class _) _ |- _ => inversion M; subst end.
  simpl. rewrite IHMatches2 by reflexivity.
  match goal with P : p _ = true |- _ => now rewrite P end.
Qed.

Lemma matches_plus_class (p : ascii -> bool) (s : string) :
  Matches (Plus (Class p)) s ->
  exists c r, s = String c r /\ p c = true /\ allChars p r = true.
Proof.
  intros H. inversion H; subst.
  match goal with M : Matches (Class _) _ |- _ => inversion M; subst end.
  eexists _, _. split; [reflexivity|]. split; [assumption|].
  eapply matches_star_class; eauto.
Qed.

Lemma matches_opt_class (p : ascii -> bool) (s : string) :
  Matches (Opt (Class p)) s ->
  s = "" \/ exists c, s = String c "" /\ p c = true.
Proof.
  intros H. inversion H; subst.
  - match goal with M : Matches (Class _) _ |- _ => inversion M; subst end.
    right; eauto.
  - match goal with M : Matches Eps _ |- _ => inversion M; subst end.
    now left.
Qed.

Lemma matches_alt (r1 r2 : regex) (s : string) :
  Matches (Alt r1 r2) s -> Matches r1 s \/ Matches r2 s.
Proof. intros H; inversion H; subst; auto. Qed.

Lemma matches_cat (r1 r2 : regex) (s : string) :
  Matches (Cat r1 r2) s ->
  exists s1 s2, s = s1 ++ s2 /\ Matches r1 s1 /\ Matches r2 s2.
Proof. intros H; inversion H; subst; eauto. Qed.

Lemma matches_sign (s : string) :
  Matches (Opt (Class isSign)) s -> s = "" \/ s = "-" \/ s = "+".
Proof.
  intros H. apply matches_opt_class in H as [->|(c & -> & C)]; [now left|].
  right. unfold isSign in C.
  apply orb_true_iff in C as [C|C]; apply is_char_eq in C; subst; auto.
Qed.

(** The texts [infinity] accepts: the three spellings, bare or signed. *)
Lemma test_infinity (input : string) :
  test infinity input = true <->
  exists spelling, In spelling infSpellings
    /\ (input = spelling \/ input = "-" ++ spelling
        \/ input = "+" ++ spelling).
Proof.
  split.
  - intros H. apply test_matches, matches_cat in H.
    destruct H as (s1 & s2 & -> & H1 & H2).
    assert (S2 : In s2 infSpellings).
    { apply matches_alt in H2 as [H2|H2];
        [|apply matches_alt in H2 as [H2|H2]];
        apply matches_lit in H2; subst; simpl; auto. }
    exists s2. split; [assumption|].
    apply matches_sign in H1 as [->|[->| ->]]; auto.
  - intros (spelling & S & E). simpl in S.
    destruct S as [<-|[<-|[<-|[]]]]; destruct E as [->|[->| ->]];
      reflexivity.
Qed.

(** ** [parseYamlFloat] *)

(** C8, as the code has it.  [parseYamlFloat] returns NaN for [.nan],
    [.NaN] and [.NAN]; returns positive infinity for [.inf], [.Inf] and
    [.INF], bare or with a plus sign, and negative infinity for the same
    three with a minus sign; every other text goes to [parseFloat], whose
    number is returned, and the message [Invalid float "<text>"] is thrown
    exactly when [parseFloat] yields NaN. *)
Theorem parseYamlFloat_cases (input : string) :
  (In input nanSpellings -> parseYamlFloat input = Normal NaN)
  /\ (forall spelling, In spelling infSpellings ->
        parseYamlFloat spelling = Normal Infinity
        /\ parseYamlFloat ("+" ++ spelling) = Normal Infinity
        /\ parseYamlFloat ("-" ++ spelling) = Normal NegInfinity)
  /\ (~ In input nanSpellings -> test infinity input = false ->
        (isNaN (parseFloat input) = false ->
           parseYamlFloat input = Normal (parseFloat input))
        /\ (isNaN (parseFloat input) = true ->
              parseYamlFloat input
              = Abrupt (Thrown (template "Invalid float " input))))
  /\ ((exists e, parseYamlFloat input = Abrupt e) <->
        ~ In input nanSpellings /\ test infinity input = false
        /\ isNaN (parseFloat input) = true).
Proof.
  split; [|split; [|split]].
  - intros H. simpl in H. destruct H as [<-|[<-|[<-|[]]]]; reflexivity.
  - intros spelling H. simpl in H.
    destruct H as [<-|[<-|[<-|[]]]]; repeat split; reflexivity.
  - intros N I. unfold parseYamlFloat. fold nanSpellings.
    apply lastIndexOf_missing in N. rewrite N, I.
    split; intros ->; reflexivity.
  - unfold parseYamlFloat. fold nanSpellings.
    destruct (0 <=? lastIndexOf nanSpellings input) eqn:N.
    + apply lastIndexOf_found in N. split.
      * intros [e H]; discriminate.
      * tauto.
    + apply lastIndexOf_missing in N.
      destruct (test infinity input) eqn:I.
      * split.
        -- intros [e H]. destruct (group1 input) as [c|];
             [destruct (is_char "-" c)|]; discriminate.
        -- intros (_ & H & _); discriminate.
      * destruct (isNaN (parseFloat input)) eqn:P; simpl.
        -- split; [intros _; auto | eauto].
        -- split; [intros [e H]; discriminate | intros (_ & _ & H)].
           discriminate.
Qed.

(** C8, as stated, fails: [.iNf] is [.inf] up to letter case, but the
    text goes to [parseFloat], which yields NaN, and [parseYamlFloat]
    throws instead of returning infinity. *)
Lemma parseYamlFloat_other_case :
  toLowerCase ".iNf" = ".inf"
  /\ parseYamlFloat ".iNf"
     = Abrupt (Thrown ("Invalid float " ++ dquote ++ ".iNf" ++ dquote))
  /\ toLowerCase "-.INf" = "-.inf"
  /\ parseYamlFloat "-.INf"
     = Abrupt (Thrown ("Invalid float " ++ dquote ++ "-.INf" ++ dquote)).
Proof. repeat split; vm_compute; reflexivity. Qed.

(** ** Numbers: rounding never yields NaN *)

Lemma shr_1_nonneg (mrs : SpecFloat.shr_record) :
  0 <= SpecFloat.shr_m mrs -> 0 <= SpecFloat.shr_m (SpecFloat.shr_1 mrs).
Proof.
  destruct mrs as [m r s]. simpl.
  destruct m as [|[p|p|]|p]; simpl; lia.
Qed.

Lemma iter_shr_1_nonneg (p : positive) :
  forall mrs, 0 <= SpecFloat.shr_m mrs ->
  0 <= SpecFloat.shr_m (SpecFloat.iter_pos SpecFloat.shr_1 p mrs).
Proof.
  induction p as [p IH|p IH|]; intros mrs H; simpl;
    auto using shr_1_nonneg.
Qed.

Lemma shr_fexp_nonneg (m e : Z) (l : SpecFloat.location) :
  0 <= m ->
  0 <= SpecFloat.shr_m (fst (SpecFloat.shr_fexp prec emax m e l)).
Proof.
  intros H. unfold SpecFloat.shr_fexp, SpecFloat.shr.
  assert (R : 0 <= SpecFloat.shr_m (SpecFloat.shr_record_of_loc m l)).
  { destruct l as [|[| |]]; exact H. }
  destruct (SpecFloat.fexp prec emax (SpecFloat.Zdigits2 m + e) - e);
    simpl; auto using iter_shr_1_nonneg.
Qed.

Lemma round_nearest_even_nonneg (m : Z) (l : SpecFloat.location) :
  0 <= m -> 0 <= SpecFloat.round_nearest_even m l.
Proof.
  intros H. destruct l as [|[| |]]; simpl; try lia.
  destruct (Z.even m); lia.
Qed.

Lemma binary_round_aux_number (sx : bool) (mx ex : Z)
    (lx : SpecFloat.location) :
  0 <= mx -> isNaN (SpecFloat.binary_round_aux prec emax sx mx ex lx) = false.
Proof.
  intros H. unfold SpecFloat.binary_round_aux.
  pose proof (shr_fexp_nonneg mx ex lx H) as H1.
  destruct (SpecFloat.shr_fexp prec emax mx ex lx) as [mrs1 e1].
  simpl in H1.
  pose proof (shr_fexp_nonneg _ e1 SpecFloat.loc_Exact
                (round_nearest_even_nonneg _
                   (SpecFloat.loc_of_shr_record mrs1) H1)) as H2.
  destruct (SpecFloat.shr_fexp prec emax _ e1 SpecFloat.loc_Exact)
    as [mrs2 e2].
  simpl in H2. destruct (SpecFloat.shr_m mrs2) as [|m|m];
    [reflexivity | | lia].
  destruct (e2 <=? emax - prec); reflexivity.
Qed.

Lemma NumberOfInteger_number (negative : bool) (n : Z) :
  isNaN (NumberOfInteger negative n) = false.
Proof.
  unfold NumberOfInteger, SpecFloat.binary_normalize, SpecFloat.binary_round.
  destruct n as [|m|m]; [reflexivity| |];
    destruct (SpecFloat.shl_align _ _ _) as [mz ez];
    apply binary_round_aux_number; lia.
Qed.

Lemma NumberOfDecimal_number (negative : bool) (m e : Z) :
  0 <= m -> isNaN (NumberOfDecimal negative m e) = false.
Proof.
  intros H. unfold NumberOfDecimal.
  destruct (Z.leb_spec 0 e) as [E|E]; [apply NumberOfInteger_number|].
  destruct (m =? 0); [reflexivity|].
  unfold SpecFloat.SFdiv_core_binary.
  set (s := 0 - 0 - _).
  set (m' := match s with Z0 => m | Zpos _ => Z.shiftl m s | Zneg _ => 0 end).
  assert (M : 0 <= m').
  { unfold m'. destruct s; try lia. now apply Z.shiftl_nonneg. }
  assert (P : 0 < 10 ^ (- e)) by (apply Z.pow_pos_nonneg; lia).
  pose proof (Z.div_pos m' (10 ^ (- e)) M P) as Q.
  unfold Z.div in Q.
  destruct (Z.div_eucl m' (10 ^ (- e))) as [q r].
  now apply binary_round_aux_number.
Qed.

Lemma digitValue_nonneg (radix : Z) (c : ascii) (v : Z) :
  digitValue radix c = Some v -> 0 <= v.
Proof.
  unfold digitValue, in_range.
  destruct (Z.leb_spec (charCode "0") (charCode c));
    destruct (Z.leb_spec (charCode c) (charCode "9"));
    destruct (Z.leb_spec (charCode "a") (charCode c));
    destruct (Z.leb_spec (charCode c) (charCode "z"));
    destruct (Z.leb_spec (charCode "A") (charCode c));
    destruct (Z.leb_spec (charCode c) (charCode "Z")); simpl;
    match goal with |- context [?a <? ?b] => destruct (a <? b) end;
    intros [= <-]; try discriminate;
    change (charCode "0") with 48 in *; change (charCode "a") with 97 in *;
    change (charCode "A") with 65 in *; lia.
Qed.

Lemma readDigits_nonneg (radix : Z) (s : string) :
  0 <= radix ->
  forall acc n, 0 <= acc -> 0 <= fst (fst (readDigits radix s acc n)).
Proof.
  intros R. induction s as [|c s IH]; intros acc n A; simpl; [exact A|].
  destruct (digitValue radix c) as [v|] eqn:D; [|exact A].
  apply IH. pose proof (digitValue_nonneg _ _ _ D). nia.
Qed.

Lemma readDecimal_nonneg (s : string) (m e : Z) :
  readDecimal s = Some (m, e) -> 0 <= m.
Proof.
  unfold readDecimal.
  pose proof (readDigits_nonneg 10 s ltac:(lia) 0 O ltac:(lia)) as I.
  destruct (readDigits 10 s 0 O) as [[ip ni] r1]. simpl in I.
  assert (F : forall r, 0 <= fst (fst (readDigits 10 r ip O))).
  { intros r. now apply readDigits_nonneg. }
  destruct r1 as [|c r].
  - destruct ni; [discriminate|]. intros [= <- _]. exact I.
  - destruct (is_char "." c).
    + specialize (F r). destruct (readDigits 10 r ip O) as [[m' nf] r2].
      simpl in F. destruct ni, nf; try discriminate; intros [= <- _]; exact F.
    + destruct ni; [discriminate|]. intros [= <- _]. exact I.
Qed.

(** The numbers of some literals: a decimal fraction, an integer beyond
    [2^53] in decimal and in hexadecimal digits, the zeros, and the
    literals too large or too small for a finite number. *)
Lemma Number_examples :
  parseFloat "0.1" = SpecFloat.S754_finite false 7205759403792794 (-56)
  /\ parseFloat "12.5px" = SpecFloat.S754_finite false 7036874417766400 (-49)
  /\ parseInt "9007199254740993" None
     = SpecFloat.S754_finite false 4503599627370496 1
  /\ parseInt "0x20000000000001" None
     = SpecFloat.S754_finite false 4503599627370496 1
  /\ parseInt ("1" ++ zeros 309) None = Infinity
  /\ parseFloat "1e400" = Infinity
  /\ parseFloat "-1e400" = NegInfinity
  /\ parseFloat "1e-400" = SpecFloat.S754_zero false
  /\ parseFloat "-0" = SpecFloat.S754_zero true
  /\ parseInt "-0" None = SpecFloat.S754_zero true
  /\ parseFloat "4.9e-324" = SpecFloat.S754_finite false 1 (-1074)
  /\ parseInt "px" None = NaN.
Proof. repeat split; vm_compute; reflexivity. Qed.

(** ** The scalar parsers accept what the classifier selects *)

Ltac char_codes :=
  repeat match goal with
  | |- context [charCode (Ascii ?a ?b ?c ?d ?e ?f ?g ?h)] =>
      let v := eval vm_compute in (charCode (Ascii a b c d e f g h)) in
      change (charCode (Ascii a b c d e f g h)) with v
  | H : context [charCode (Ascii ?a ?b ?c ?d ?e ?f ?g ?h)] |- _ =>
      let v := eval vm_compute in (charCode (Ascii a b c d e f g h)) in
      change (charCode (Ascii a b c d e f g h)) with v in H
  end.

Ltac char_tests :=
  unfold isDigit, isOctal, isHex, isSign, isWhiteSpace, digitValue,
    in_range, is_char in *;
  char_codes;
  repeat match goal with
  | H : _ && _ = true |- _ => apply andb_true_iff in H; destruct H
  | H : _ || _ = true |- _ => apply orb_true_iff in H; destruct H
  | H : (_ <=? _) = true |- _ => apply Z.leb_le in H
  | H : (_ <? _) = true |- _ => apply Z.ltb_lt in H
  | H : (_ =? _) = true |- _ => apply Z.eqb_eq in H
  end;
  repeat match goal with
  | |- context [?a <=? ?b] => destruct (Z.leb_spec a b); simpl in *; try lia
  | |- context [?a <? ?b] => destruct (Z.ltb_spec a b); simpl in *; try lia
  | |- context [?a =? ?b] => destruct (Z.eqb_spec a b); simpl in *; try lia
  end;
  simpl in *; try reflexivity; try lia; eauto.

Lemma digit_not_space (c : ascii) : isHex c = true -> isWhiteSpace c = false.
Proof. intros H. char_tests. Qed.

Lemma digit_not_sign (c : ascii) :
  isHex c = true -> is_char "-" c = false /\ is_char "+" c = false.
Proof. intros H. split; char_tests. Qed.

Lemma isDigit_isHex (c : ascii) : isDigit c = true -> isHex c = true.
Proof. intros H. char_tests. Qed.

Lemma isOctal_isDigit (c : ascii) : isOctal c = true -> isDigit c = true.
Proof. intros H. char_tests. Qed.

Lemma isDigit_value (c : ascii) :
  isDigit c = true -> exists v, digitValue 10 c = Some v.
Proof. intros H. char_tests. Qed.

Lemma isOctal_value (c : ascii) :
  isOctal c = true -> exists v, digitValue 8 c = Some v.
Proof. intros H. char_tests. Qed.

Lemma isHex_value (c : ascii) :
  isHex c = true -> exists v, digitValue 16 c = Some v.
Proof. intros H. char_tests. Qed.

Lemma isDigit_not_x (c : ascii) :
  isDigit c = true -> (is_char "x" c || is_char "X" c) = false.
Proof. intros H. char_tests. Qed.

Lemma isDigit_not_o (c : ascii) : isDigit c = true -> is_char "o" c = false.
Proof. intros H. char_tests. Qed.

Lemma isDigit_not_I (c : ascii) : isDigit c = true -> is_char "I" c = false.
Proof. intros H. char_tests. Qed.

Lemma readDigits_count (radix : Z) (s : string) (acc : Z) (n : nat) :
  (n <= digitCount (readDigits radix s acc n))%nat.
Proof.
  revert acc n; induction s as [|c s IH]; intros acc n; simpl.
  - apply Nat.le_refl.
  - destruct (digitValue radix c); [|apply Nat.le_refl].
    eapply Nat.le_trans; [|apply IH]. auto.
Qed.

Lemma readDigits_some (radix : Z) (c : ascii) (s : string) (acc : Z)
    (n : nat) (v : Z) :
  digitValue radix c = Some v ->
  exists v' k rest,
    readDigits radix (String c s) acc n = (v', S k, rest).
Proof.
  intros D. simpl. rewrite D.
  pose proof (readDigits_count radix s (acc * radix + v) (S n)) as L.
  destruct (readDigits radix s (acc * radix + v) (S n)) as [[v' k] rest].
  unfold digitCount in L; simpl in L.
  destruct k; [lia | eauto].
Qed.

Lemma trimStart_head (c : ascii) (s : string) :
  isWhiteSpace c = false -> trimStart (String c s) = String c s.
Proof. intros H. simpl. now rewrite H. Qed.

Lemma stripSign_head (c : ascii) (s : string) :
  is_char "-" c = false -> is_char "+" c = false ->
  stripSign (String c s) = (false, String c s).
Proof. intros M P. unfold stripSign. now rewrite M, P. Qed.

(** After an optional sign, a decimal digit: [parseInt] reads a number. *)
Lemma parseInt_unsigned (c : ascii) (s : string) (neg : bool) :
  isDigit c = true ->
  match s with String d _ => isDigit d = true | EmptyString => True end ->
  isNaN
    (let '(R, t) :=
       match stripHexPrefix (String c s) with
       | Some r => (16, r)
       | None => (10, String c s)
       end in
     let '(v, n, _) := readDigits R t 0 O in
     match n with
     | O => NaN
     | S _ => NumberOfInteger neg ((if neg then -1 else 1) * v)
     end) = false.
Proof.
  intros C D.
  assert (X : stripHexPrefix (String c s) = None).
  { unfold stripHexPrefix. destruct s as [|d s]; [reflexivity|].
    rewrite (isDigit_not_x _ D). now rewrite andb_false_r. }
  rewrite X.
  destruct (isDigit_value _ C) as [v V].
  destruct (readDigits_some 10 c s 0 O v V) as (v' & k & rest & ->).
  apply NumberOfInteger_number.
Qed.

Lemma allChars_head (p : ascii -> bool) (s : string) :
  allChars p s = true ->
  match s with String d _ => p d = true | EmptyString => True end.
Proof.
  destruct s as [|d s]; simpl; [trivial|].
  intros H. now apply andb_true_iff in H.
Qed.

Lemma parseInt_base10 (text : string) :
  test base10 text = true -> isNaN (parseInt text None) = false.
Proof.
  intros H. apply test_matches, matches_cat in H.
  destruct H as (s1 & s2 & -> & H1 & H2).
  apply matches_plus_class in H2 as (c & r & -> & C & R).
  apply allChars_head in R.
  pose proof (digit_not_space _ (isDigit_isHex _ C)) as W.
  destruct (digit_not_sign _ (isDigit_isHex _ C)) as [M P].
  unfold parseInt.
  apply matches_sign in H1 as [->|[->| ->]]; simpl append.
  - rewrite (trimStart_head _ _ W), (stripSign_head _ _ M P). simpl.
    apply (parseInt_unsigned c r false C R).
  - change (trimStart (String "-" (String c r))) with (String "-" (String c r)).
    change (stripSign (String "-" (String c r))) with (true, String c r).
    simpl. apply (parseInt_unsigned c r true C R).
  - change (trimStart (String "+" (String c r))) with (String "+" (String c r)).
    change (stripSign (String "+" (String c r))) with (false, String c r).
    simpl. apply (parseInt_unsigned c r false C R).
Qed.

Lemma parseInt_base16 (text : string) :
  test base16 text = true ->
  startsWith "0o" text = false /\ isNaN (parseInt text None) = false.
Proof.
  intros H. apply test_matches, matches_cat in H.
  destruct H as (s1 & s2 & -> & H1 & H2).
  apply matches_lit in H1 as ->.
  apply matches_plus_class in H2 as (c & r & -> & C & _).
  split; [reflexivity|].
  destruct (isHex_value _ C) as [v V].
  destruct (readDigits_some 16 c r 0 O v V) as (v' & k & rest & E).
  unfold parseInt. simpl append.
  change (trimStart (String "0" (String "x" (String c r))))
    with (String "0" (String "x" (String c r))).
  change (stripSign (String "0" (String "x" (String c r))))
    with (false, String "0" (String "x" (String c r))).
  cbv beta iota zeta.
  change (stripHexPrefix (String "0" (String "x" (String c r))))
    with (Some (String c r)).
  simpl. simpl in E. rewrite E. apply NumberOfInteger_number.
Qed.

Lemma parseInt_base8 (text : string) :
  test base8 text = true ->
  startsWith "0o" text = true
  /\ isNaN (parseInt (substring_from 2 text) (Some 8)) = false.
Proof.
  intros H. apply test_matches, matches_cat in H.
  destruct H as (s1 & s2 & -> & H1 & H2).
  apply matches_lit in H1 as ->.
  apply matches_plus_class in H2 as (c & r & -> & C & _).
  split; [reflexivity|].
  destruct (isOctal_value _ C) as [v V].
  destruct (readDigits_some 8 c r 0 O v V) as (v' & k & rest & E).
  pose proof (isDigit_isHex _ (isOctal_isDigit _ C)) as X.
  pose proof (digit_not_space _ X) as W.
  destruct (digit_not_sign _ X) as [M P].
  unfold parseInt. simpl append. simpl substring_from.
  rewrite (trimStart_head _ _ W), (stripSign_head _ _ M P).
  cbv beta iota zeta. simpl. simpl in E. rewrite E.
  apply NumberOfInteger_number.
Qed.

Lemma base10_not_octal_prefix (text : string) :
  test base10 text = true -> startsWith "0o" text = false.
Proof.
  intros H. apply test_matches, matches_cat in H.
  destruct H as (s1 & s2 & -> & H1 & H2).
  apply matches_plus_class in H2 as (c & r & -> & C & R).
  apply allChars_head in R.
  apply matches_sign in H1 as [->|[->| ->]]; try reflexivity.
  simpl. destruct r as [|d r]; [now rewrite andb_false_r|].
  pose proof (isDigit_not_o _ R) as O. unfold is_char in O.
  rewrite O. now rewrite andb_false_r.
Qed.

(** The integer literals the classifier accepts are parsed. *)
Lemma parseYamlInteger_accepts (text : string) :
  (test base10 text || test base8 text || test base16 text) = true ->
  exists v, parseYamlInteger text = Normal v.
Proof.
  intros H. unfold parseYamlInteger, safeParseYamlInteger,
    String_lastIndexOf0.
  apply orb_true_iff in H as [H|H]; [apply orb_true_iff in H as [H|H]|].
  - rewrite (base10_not_octal_prefix _ H).
    change (-1 =? 0) with false. cbv beta iota zeta.
    rewrite (parseInt_base10 _ H). eauto.
  - destruct (parseInt_base8 _ H) as [-> N].
    change (0 =? 0) with true. cbv beta iota zeta. rewrite N. eauto.
  - destruct (parseInt_base16 _ H) as [-> N].
    change (-1 =? 0) with false. cbv beta iota zeta. rewrite N. eauto.
Qed.

(** A text that opens with a digit, or with a dot and a digit, is a
    decimal literal for [parseFloat]. *)
Lemma readDecimal_digit (c : ascii) (s : string) :
  isDigit c = true -> exists m e, readDecimal (String c s) = Some (m, e).
Proof.
  intros C. destruct (isDigit_value _ C) as [v V].
  destruct (readDigits_some 10 c s 0 O v V) as (ip & k & r1 & E).
  unfold readDecimal. rewrite E.
  destruct r1 as [|d r]; [eauto|].
  destruct (is_char "." d); [|eauto].
  destruct (readDigits 10 r ip O) as [[m nf] r2]. eauto.
Qed.

Lemma readDecimal_dot_digit (c : ascii) (s : string) :
  isDigit c = true ->
  exists m e, readDecimal (String "." (String c s)) = Some (m, e).
Proof.
  intros C. destruct (isDigit_value _ C) as [v V].
  destruct (readDigits_some 10 c s 0 O v V) as (m & k & r2 & E).
  unfold readDecimal.
  change (readDigits 10 (String "." (String c s)) 0 O)
    with (0, O, String "." (String c s)).
  cbv beta iota zeta.
  change (is_char "." ".") with true. cbv iota.
  rewrite E. eauto.
Qed.

Lemma parseFloat_body (neg : bool) (s : string) :
  (exists c r, isDigit c = true
     /\ (s = String c r \/ s = String "." (String c r))) ->
  isNaN
    (if startsWith "Infinity" s
     then (if neg then NegInfinity else Infinity)
     else match readDecimal s with
          | None => NaN
          | Some (m, e) => NumberOfDecimal neg m e
          end) = false.
Proof.
  intros (c & r & C & [->| ->]).
  - pose proof (isDigit_not_I _ C) as I. unfold is_char in I.
    simpl startsWith. rewrite I. simpl.
    destruct (readDecimal_digit c r C) as (m & e & E). rewrite E.
    apply NumberOfDecimal_number. eapply readDecimal_nonneg; eassumption.
  - change (startsWith "Infinity" (String "." (String c r))) with false.
    destruct (readDecimal_dot_digit c r C) as (m & e & E). rewrite E.
    apply NumberOfDecimal_number. eapply readDecimal_nonneg; eassumption.
Qed.

Lemma float_shape (text : string) :
  test float text = true ->
  exists sign s, text = sign ++ s
    /\ (sign = "" \/ sign = "-" \/ sign = "+")
    /\ exists c r, isDigit c = true
         /\ (s = String c r \/ s = String "." (String c r)).
Proof.
  intros H. apply test_matches, matches_cat in H.
  destruct H as (sign & s & -> & H1 & H2).
  exists sign, s. split; [reflexivity|].
  split; [now apply matches_sign|].
  apply matches_cat in H2 as (body & ex & -> & B & _).
  apply matches_alt in B as [B|B]; apply matches_cat in B;
    destruct B as (b1 & b2 & -> & B1 & B2).
  - apply matches_lit in B1 as ->.
    apply matches_plus_class in B2 as (c & r & -> & C & _).
    exists c, (r ++ ex). split; [assumption|]. right. reflexivity.
  - apply matches_plus_class in B1 as (c & r & -> & C & _).
    exists c, ((r ++ b2) ++ ex). split; [assumption|]. left. reflexivity.
Qed.

Lemma parseFloat_float (text : string) :
  test float text = true -> isNaN (parseFloat text) = false.
Proof.
  intros H. apply float_shape in H.
  destruct H as (sign & s & -> & S & B).
  assert (N : trimStart s = s /\ stripSign s = (false, s)).
  { destruct B as (c & r & C & [->| ->]).
    - pose proof (digit_not_space _ (isDigit_isHex _ C)) as W.
      destruct (digit_not_sign _ (isDigit_isHex _ C)) as [M P].
      now rewrite (trimStart_head _ _ W), (stripSign_head _ _ M P).
    - split; reflexivity. }
  destruct N as [T G]. unfold parseFloat.
  destruct S as [->|[->| ->]]; simpl append.
  - rewrite T, G. apply (parseFloat_body false s B).
  - change (trimStart (String "-" s)) with (String "-" s).
    change (stripSign (String "-" s)) with (true, s).
    apply (parseFloat_body true s B).
  - change (trimStart (String "+" s)) with (String "+" s).
    change (stripSign (String "+" s)) with (false, s).
    apply (parseFloat_body false s B).
Qed.

(** The float literals the classifier accepts are parsed. *)
Lemma parseYamlFloat_accepts (text : string) :
  (test float text || test infinity text
   || (0 <=? indexOf nanSpellings (Some text))) = true ->
  exists v, parseYamlFloat text = Normal v.
Proof.
  intros H. unfold parseYamlFloat. fold nanSpellings.
  destruct (0 <=? lastIndexOf nanSpellings text) eqn:N; [eauto|].
  destruct (test infinity text) eqn:I.
  - destruct (group1 text) as [c|]; [destruct (is_char "-" c)|]; eauto.
  - rewrite orb_false_r in H.
    apply lastIndexOf_missing in N. apply indexOf_missing in N.
    rewrite N, orb_false_r in H.
    rewrite (parseFloat_float _ H). simpl. eauto.
Qed.

(** The boolean literals the classifier accepts are parsed. *)
Lemma parseYamlBoolean_accepts (text : string) :
  (0 <=? indexOf (trueSpellings ++ falseSpellings) (Some text)) = true ->
  exists b, parseYamlBoolean text = Normal b.
Proof.
  intros H. apply indexOf_found, in_app_or in H.
  unfold parseYamlBoolean. fold trueSpellings falseSpellings.
  destruct (0 <=? lastIndexOf trueSpellings text) eqn:T; [eauto|].
  apply lastIndexOf_missing in T. destruct H as [H|H]; [contradiction|].
  apply lastIndexOf_found in H. rewrite H. eauto.
Qed.

(** ** The builder *)

(** Induction over the tokenizer's node graph. *)
Lemma YAMLNode_induction (P : Yaml.YAMLNode -> Prop) :
  (forall s e mappings, Forall P mappings -> P (Yaml.YamlMap s e mappings)) ->
  (forall s e key value,
      match value with Some v => P v | None => True end ->
      P (Yaml.YAMLMapping s e key value)) ->
  (forall s e items,
      Forall (fun item => match item with Some n => P n | None => True end)
             items ->
      P (Yaml.YAMLSequence s e items)) ->
  (forall instance, P (Yaml.Scalar instance)) ->
  (forall s e a, P (Yaml.YAMLAnchorReference s e a)) ->
  (forall s e, P (Yaml.IncludeRef s e)) ->
  forall n, P n.
Proof.
  intros HMap HMapping HSeq HScalar HAnchor HInclude.
  fix IH 1. intros [s e ms|s e k v|s e items|i|s e a|s e].
  - apply HMap. induction ms as [|m ms IHms]; constructor; auto.
  - apply HMapping. destruct v as [v|]; [apply IH | exact I].
  - apply HSeq. induction items as [|m ms IHms]; constructor; auto.
    destruct m as [m|]; [apply IH | exact I].
  - apply HScalar.
  - apply HAnchor.
  - apply HInclude.
Qed.

Lemma bind_normal {A B : Type} (c : Build A) (k : A -> Build B)
    (st st1 : NodeId) (a : A) :
  c st = Normal (a, st1) -> bind c k st = k a st1.
Proof. intros E. unfold bind. now rewrite E. Qed.

Lemma header_setLocation (l : option Segment) (n : ASTNode) :
  self (header (setLocation l n)) = self (header n)
  /\ parent (header (setLocation l n)) = parent (header n)
  /\ location (header (setLocation l n)) = l
  /\ start (header (setLocation l n)) = start (header n)
  /\ end_ (header (setLocation l n)) = end_ (header n).
Proof. destruct n; simpl; auto. Qed.

Lemma determineScalarType_not_plain (node : Yaml.YAMLScalar) :
  isPlain node = false -> determineScalarType (Some node) = ScalarType.string.
Proof.
  unfold isPlain, determineScalarType.
  destruct (Yaml.doubleQuoted node), (Yaml.plainScalar node),
    (Yaml.singleQuoted node); simpl; congruence.
Qed.

(** A scalar always yields a leaf: the parser the classifier selects
    accepts the text. *)
Lemma buildScalar_normal (p : option NodeId) (instance : Yaml.YAMLScalar)
    (st : NodeId) :
  exists node,
    buildScalar p instance st = Normal (Some node, S st)
    /\ getChildNodes node = []
    /\ header node
       = {| self := st; parent := p; location := None;
            start := Yaml.startPosition instance;
            end_ := Yaml.endPosition instance |}.
Proof.
  unfold buildScalar.
  destruct (isPlain instance) eqn:P.
  - rewrite (determineScalarType_plain _ P).
    destruct (Yaml.value instance) as [text|]; [|eexists; repeat split].
    destruct (0 <=? indexOf nullSpellings (Some text));
      [eexists; repeat split|].
    destruct (0 <=? indexOf (trueSpellings ++ falseSpellings) (Some text))
      eqn:B.
    { destruct (parseYamlBoolean_accepts _ B) as [b E].
      unfold bind, lift. rewrite E. eexists; repeat split. }
    destruct (test base10 text || test base8 text || test base16 text) eqn:I.
    { destruct (parseYamlInteger_accepts _ I) as [q E].
      unfold bind, lift, new. rewrite E. eexists; repeat split. }
    destruct (test float text || test infinity text
              || (0 <=? indexOf nanSpellings (Some text))) eqn:F.
    { destruct (parseYamlFloat_accepts _ F) as [v E].
      unfold bind, lift, new. rewrite E. eexists; repeat split. }
    eexists; repeat split.
  - rewrite (determineScalarType_not_plain _ P). eexists; repeat split.
Qed.

Lemma forEachMapping_normal (build : Yaml.YAMLNode -> Build (option ASTNode))
    (mappings : list Yaml.YAMLNode) :
  Forall (fun m => forall st, exists r st',
              build m st = Normal (r, st') /\ (st <= st')%nat) mappings ->
  forall properties st, exists properties' st',
    forEachMapping build mappings properties st = Normal (properties', st')
    /\ (st <= st')%nat.
Proof.
  induction 1 as [|m ms Hm _ IH]; intros properties st; simpl.
  - unfold ret. eauto.
  - unfold bind. destruct (Hm st) as (r & st1 & -> & L1).
    destruct (IH (addProperty properties r) st1) as (ps & st2 & -> & L2).
    exists ps, st2. split; [reflexivity | lia].
Qed.

Lemma forEachItem_normal
    (build : option Yaml.YAMLNode -> Build (option ASTNode))
    (items : list (option Yaml.YAMLNode)) :
  Forall (fun m => forall st, exists node st',
              build m st = Normal (Some node, st') /\ (st <= st')%nat) items ->
  forall count children st, exists children' st',
    forEachItem build items count children st = Normal (children', st')
    /\ (st <= st')%nat.
Proof.
  induction 1 as [|m ms Hm _ IH]; intros count children st; simpl.
  - unfold ret. eauto.
  - unfold bind. destruct (Hm st) as (r & st1 & -> & L1).
    destruct (IH (count + 1)
                (children ++ [setLocation (Some (Index count)) r])%list st1)
      as (ps & st2 & -> & L2).
    exists ps, st2. split; [reflexivity | lia].
Qed.

(** On a graph it gets through the builder ends normally; it yields a
    node exactly for a node that is no reference, and that node carries
    the parent it was built under. *)
Lemma buildNode_buildable (n : Yaml.YAMLNode) :
  buildable n = true ->
  forall p st, exists r st',
    buildNode p n st = Normal (r, st') /\ (st <= st')%nat
    /\ (present n = false -> r = None)
    /\ (present n = true ->
        exists node, r = Some node /\ parent (header node) = p).
Proof.
  induction n as [s e ms IH|s e k v IH|s e items IH|i|s e a|s e]
    using YAMLNode_induction; intros F p st; simpl in F.
  - (* MAP *)
    simpl. unfold bind at 1. simpl.
    destruct (forEachMapping_normal (buildNode (Some st)) ms) with
      (properties := @nil ASTNode) (st := S st) as (ps & st' & E & L).
    { rewrite forallb_forall in F. rewrite Forall_forall in *.
      intros m Hm st0. destruct (IH m Hm (F m Hm) (Some st) st0)
        as (r & st1 & E & L & _). eauto. }
    rewrite (bind_normal _ _ _ _ _ E). unfold ret.
    eexists _, _. split; [reflexivity|]. split; [lia|].
    split; [discriminate|]. intros _. eexists; split; reflexivity.
  - (* MAPPING *)
    simpl. unfold bind at 1. simpl. unfold bind at 1. simpl.
    destruct v as [v|].
    + apply andb_true_iff in F as [Pv Fv].
      destruct (IH Fv (Some (S st)) (S (S st)))
        as (r & st' & E & L & _ & Hr).
      destruct (Hr Pv) as (node & -> & _).
      rewrite (bind_normal _ _ _ _ _ E). unfold ret.
      eexists _, _. split; [reflexivity|]. split; [lia|].
      split; [discriminate|]. intros _. eexists; split; reflexivity.
    + unfold bind, new, ret. simpl.
      eexists _, _. split; [reflexivity|]. split; [lia|].
      split; [discriminate|]. intros _. eexists; split; reflexivity.
  - (* SEQ *)
    simpl. unfold bind at 1. simpl.
    destruct (forEachItem_normal (whenPresent (buildNode (Some st))) items)
      with (count := 0) (children := @nil ASTNode) (st := S st)
      as (ps & st' & E & L).
    { rewrite forallb_forall in F. rewrite Forall_forall in *.
      intros m Hm st0. specialize (F m Hm). specialize (IH m Hm).
      destruct m as [m|]; [|discriminate].
      apply andb_true_iff in F as [Pm Fm].
      destruct (IH Fm (Some st) st0) as (r & st1 & E & L & _ & Hr).
      destruct (Hr Pm) as (node & -> & _). simpl. eauto. }
    rewrite (bind_normal _ _ _ _ _ E). unfold ret.
    eexists _, _. split; [reflexivity|]. split; [lia|].
    split; [discriminate|]. intros _. eexists; split; reflexivity.
  - (* SCALAR *)
    simpl. destruct (buildScalar_normal p i st) as (node & E & _ & H).
    exists (Some node), (S st). split; [assumption|]. split; [lia|].
    split; [discriminate|]. intros _. exists node. now rewrite H.
  - simpl. unfold ret. eexists _, _. split; [reflexivity|].
    split; [lia|]. split; [reflexivity | discriminate].
  - simpl. unfold ret. eexists _, _. split; [reflexivity|].
    split; [lia|]. split; [reflexivity | discriminate].
Qed.

(** C10. A mapping entry whose value is elided yields a property whose
    value is a synthesized [null] node spanning the entry, and the parent
    back-reference of that node is the parent of the property (the
    enclosing node the entry was built under), not the property.  A
    mapping entry with an explicit value yields a property whose value
    node has the property as its parent back-reference. *)
Theorem recursivelyBuildAst_value_parent (p : option NodeId) (s e : Z)
    (key : Yaml.YAMLScalar) (st : NodeId) :
  (forall i, p = Some i -> (i < st)%nat) ->
  (exists property keyNode null,
      recursivelyBuildAst p (Some (Yaml.YAMLMapping s e key None)) st
      = Normal (Some (PropertyASTNode property keyNode (NullASTNode null)),
                S (S (S st)))
      /\ parent property = p
      /\ parent null = parent property
      /\ parent null <> Some (self property)
      /\ start null = s /\ end_ null = e
      /\ location null = nameOf (Yaml.value key))
  /\ (forall v, present v = true -> buildable v = true ->
      exists property keyNode valueNode st',
        recursivelyBuildAst p (Some (Yaml.YAMLMapping s e key (Some v))) st
        = Normal (Some (PropertyASTNode property keyNode valueNode), st')
        /\ parent property = p
        /\ parent (header valueNode) = Some (self property)).
Proof.
  intros Fresh. split.
  - unfold recursivelyBuildAst. simpl. unfold bind, new, ret. simpl.
    eexists _, _, _. split; [reflexivity|]. simpl.
    repeat split; try reflexivity.
    intros E. specialize (Fresh _ E). lia.
  - intros v Pv Fv. simpl. unfold bind at 1. simpl. unfold bind at 1. simpl.
    destruct (buildNode_buildable v Fv (Some (S st)) (S (S st)))
      as (r & st' & E & _ & _ & Hr).
    destruct (Hr Pv) as (node & -> & Hp).
    rewrite (bind_normal _ _ _ _ _ E). unfold ret.
    eexists _, _, _, _. split; [reflexivity|]. simpl.
    split; [reflexivity|].
    now rewrite (proj1 (proj2 (header_setLocation _ _))).
Qed.

Lemma recursivelyBuildAst_value_parent_example :
  (exists property keyNode null,
      recursivelyBuildAst (Some O) (Some (Yaml.YAMLMapping 5 7 (plain 5 6 "b") None)) 4%nat
      = Normal (Some (PropertyASTNode property keyNode (NullASTNode null)), 7%nat)
      /\ parent property = Some O
      /\ parent null = parent property
      /\ parent null <> Some (self property)
      /\ start null = 5 /\ end_ null = 7
      /\ location null = Some (Name "b"))
  /\ exists object a av b bk bv st,
       recursivelyBuildAst None (Some mapWithElidedValue) O
       = Normal (Some (ObjectASTNode object
                         [a; PropertyASTNode b bk (NullASTNode bv)]), st)
       /\ getChildNodes a = [StringASTNode
                               {| self := 1%nat; parent := Some 2%nat;
                                  location := Some (Name "a");
                                  start := 0; end_ := 1 |}
                               true (Some "a"); av]
       /\ parent (header av) = Some (self (header a))
       /\ parent bv = Some (self object)
       /\ parent b = Some (self object).
Proof.
  split.
  - apply (recursivelyBuildAst_value_parent (Some O) 5 7 (plain 5 6 "b") 4%nat).
    intros i E. injection E as <-. lia.
  - vm_compute. eexists _, _, _, _, _, _, _.
    split; [reflexivity|]. repeat split.
Defined.

(** ** Where the builder stops *)

Lemma reference_absent (n : Yaml.YAMLNode) (p : option NodeId) (st : NodeId) :
  present n = false -> buildNode p n st = Normal (None, st).
Proof. destruct n; simpl; intros H; try discriminate; reflexivity. Qed.

Lemma bind_abrupt {A B : Type} (c : Build A) (k : A -> Build B)
    (st : NodeId) (e : Exception) :
  c st = Abrupt e -> bind c k st = Abrupt e.
Proof. intros E. unfold bind. now rewrite E. Qed.

Lemma forEachMapping_abrupt (q : option NodeId) (mappings : list Yaml.YAMLNode) :
  Forall (fun m => forall p st, buildable m = false ->
              buildNode p m st = Abrupt cannotSetLocation) mappings ->
  forallb buildable mappings = false ->
  forall properties st,
    forEachMapping (buildNode q) mappings properties st
    = Abrupt cannotSetLocation.
Proof.
  induction 1 as [|m ms Hm _ IH]; simpl; intros F properties st;
    [discriminate|].
  destruct (buildable m) eqn:Fm.
  - destruct (buildNode_buildable m Fm q st) as (r & st1 & E & _).
    rewrite (bind_normal _ _ _ _ _ E). apply IH. exact F.
  - apply bind_abrupt. now apply Hm.
Qed.

Lemma forEachItem_abrupt (q : option NodeId)
    (items : list (option Yaml.YAMLNode)) :
  Forall (fun item =>
            match item with
            | Some m => forall p st, buildable m = false ->
                        buildNode p m st = Abrupt cannotSetLocation
            | None => True
            end) items ->
  forallb (fun item =>
             match item with
             | Some n => present n && buildable n
             | None => false
             end) items = false ->
  forall count children st,
    forEachItem (whenPresent (buildNode q)) items count children st
    = Abrupt cannotSetLocation.
Proof.
  induction 1 as [|item rest Hm _ IH]; simpl; intros F count children st;
    [discriminate|].
  destruct item as [m|]; [|reflexivity]. simpl.
  destruct (buildable m) eqn:Fm.
  - destruct (buildNode_buildable m Fm q st)
      as (r & st1 & E & _ & A & P).
    rewrite (bind_normal _ _ _ _ _ E).
    destruct (present m).
    + destruct (P eq_refl) as (node & -> & _). apply IH. exact F.
    + rewrite (A eq_refl). reflexivity.
  - apply bind_abrupt. now apply Hm.
Qed.

(** An item of a sequence that is absent or a reference, or a value of a
    mapping that is a reference, at any depth, stops the builder with the
    [TypeError] of the assignment to its location. *)
Lemma buildNode_stops (n : Yaml.YAMLNode) :
  forall p st, buildable n = false ->
  buildNode p n st = Abrupt cannotSetLocation.
Proof.
  induction n as [s e ms IH|s e k v IH|s e items IH|i|s e a|s e]
    using YAMLNode_induction; intros p st F; simpl in F;
    try discriminate.
  - simpl. unfold bind at 1. simpl. apply bind_abrupt.
    now apply forEachMapping_abrupt.
  - simpl. unfold bind at 1. simpl. unfold bind at 1. simpl.
    destruct v as [v|]; [|discriminate].
    destruct (present v) eqn:Pv; simpl in F.
    + apply bind_abrupt. now apply IH.
    + rewrite (bind_normal _ _ _ _ _
                 (reference_absent v (Some (S st)) (S (S st)) Pv)).
      reflexivity.
  - simpl. unfold bind at 1. simpl. apply bind_abrupt.
    now apply forEachItem_abrupt.
Qed.

(** ** [parse] *)

(** What [parse] returns on a node graph the builder gets through. *)
Lemma parse_normal (safeLoad : string -> Completion (option Yaml.YAMLDocument))
    (text : string) (config : option JSONDocumentConfig)
    (yamlDoc : Yaml.YAMLDocument) :
  safeLoad text = Normal (Some yamlDoc) ->
  buildable (Yaml.node yamlDoc) = true ->
  exists r,
    parse safeLoad text config
    = Normal
        {| config := config;
           root := r;
           errors :=
             ((if present (Yaml.node yamlDoc) then []
               else [expectedYaml (Yaml.node yamlDoc)])
              ++ map convertError
                   (filter (fun e => negb (isDuplicateKey e))
                           (Yaml.errors yamlDoc)))%list;
           warnings :=
             map convertError (filter isDuplicateKey (Yaml.errors yamlDoc)) |}
    /\ (r = None <-> present (Yaml.node yamlDoc) = false).
Proof.
  intros L F. unfold parse. rewrite L. simpl.
  destruct (buildNode_buildable _ F None O) as (r & st & -> & _ & A & P).
  exists r. destruct (present (Yaml.node yamlDoc)).
  - destruct (P eq_refl) as (node & -> & _).
    split; [reflexivity|]. split; discriminate.
  - rewrite (A eq_refl). split; [reflexivity|]. split; reflexivity.
Qed.

(** Where [parse] stops on a node graph the builder does not get
    through. *)
Lemma parse_stops (safeLoad : string -> Completion (option Yaml.YAMLDocument))
    (text : string) (config : option JSONDocumentConfig)
    (yamlDoc : Yaml.YAMLDocument) :
  safeLoad text = Normal (Some yamlDoc) ->
  buildable (Yaml.node yamlDoc) = false ->
  parse safeLoad text config = Abrupt cannotSetLocation.
Proof.
  intros L F. unfold parse. rewrite L. simpl.
  now rewrite (buildNode_stops _ None O F).
Qed.

(** The two lists of a document [parse] returns. *)
Lemma parse_fields (safeLoad : string -> Completion (option Yaml.YAMLDocument))
    (text : string) (config : option JSONDocumentConfig)
    (yamlDoc : Yaml.YAMLDocument) (doc : JSONDocument) :
  safeLoad text = Normal (Some yamlDoc) ->
  parse safeLoad text config = Normal doc ->
  errors doc
  = ((match root doc with
      | None => [expectedYaml (Yaml.node yamlDoc)]
      | Some _ => []
      end)
     ++ map convertError
          (filter (fun e => negb (isDuplicateKey e)) (Yaml.errors yamlDoc)))%list
  /\ warnings doc
     = map convertError (filter isDuplicateKey (Yaml.errors yamlDoc)).
Proof.
  intros L. unfold parse. rewrite L. simpl.
  destruct (buildNode None (Yaml.node yamlDoc) O) as [[r st]|e];
    [|discriminate].
  intros [= <-]. simpl. split; reflexivity.
Qed.

Lemma filter_nil_iff {A : Type} (f : A -> bool) (xs : list A) :
  filter f xs = [] <-> forall x, In x xs -> f x = false.
Proof.
  induction xs as [|x xs IH]; simpl.
  - split; [intros _ x [] | reflexivity].
  - destruct (f x) eqn:E.
    + split; [discriminate|]. intros H.
      specialize (H x (or_introl eq_refl)). congruence.
    + rewrite IH. split.
      * intros H y [<-|Hy]; auto.
      * intros H y Hy. apply H. now right.
Qed.

(** C1.  [parse] has no handler, and failures leave it where the claim
    has it return a document for every text.  An exception the tokenizer
    throws leaves [parse] as it is.  When the tokenizer hands back
    nothing, the [TypeError] of reading [startPosition] leaves it.  And
    when, at any depth of the node graph, a sequence has an item that is
    absent or an alias or include reference (for which the unfinished
    case of the builder makes no node), or a mapping has a reference as
    its value, the [TypeError] of assigning [location] leaves it. *)
Theorem parse_failure_escapes
    (safeLoad : string -> Completion (option Yaml.YAMLDocument))
    (text : string) (config : option JSONDocumentConfig) :
  (forall e, safeLoad text = Abrupt e ->
     parse safeLoad text config = Abrupt e)
  /\ (safeLoad text = Normal None ->
      parse safeLoad text config
      = Abrupt (TypeError "Cannot read property 'startPosition' of undefined"))
  /\ (forall yamlDoc,
        safeLoad text = Normal (Some yamlDoc) ->
        buildable (Yaml.node yamlDoc) = false ->
        parse safeLoad text config
        = Abrupt (TypeError "Cannot set property 'location' of undefined")).
Proof.
  split; [|split].
  - intros e L. unfold parse. now rewrite L.
  - intros L. unfold parse. now rewrite L.
  - intros yamlDoc L F. now apply parse_stops with (yamlDoc := yamlDoc).
Qed.

Lemma parse_failure_escapes_example :
  parse (fun _ => Normal (Some sequenceWithAlias)) "[&a 1, *a]" None
  = Abrupt (TypeError "Cannot set property 'location' of undefined")
  /\ parse (fun _ => Normal (Some sequenceWithEmptyEntry)) "- " None
     = Abrupt (TypeError "Cannot set property 'location' of undefined").
Proof.
  split.
  - destruct (parse_failure_escapes
                (fun _ => Normal (Some sequenceWithAlias)) "[&a 1, *a]" None)
      as (_ & _ & Stops).
    apply (Stops sequenceWithAlias); reflexivity.
  - destruct (parse_failure_escapes
                (fun _ => Normal (Some sequenceWithEmptyEntry)) "- " None)
      as (_ & _ & Stops).
    apply (Stops sequenceWithEmptyEntry); reflexivity.
Defined.

(** C2.  Where [parse] returns a document, it has sorted the tokenizer's
    diagnostics by reason: the warnings are those whose reason is exactly
    [duplicate key], the errors are all the others (after the entry for a
    missing root), each with the message of the diagnostic and a span
    that ends two characters before the end of the tokenizer's buffer.
    So the document has no error exactly when it has a root and every
    diagnostic has that reason, it has a warning exactly when some
    diagnostic has that reason, and it has an error whenever a diagnostic
    has another reason.  But a text with a repeated key does not always
    get that far: when a value is an alias (or the node graph stops the
    builder elsewhere), [parse] ends with the [TypeError] of assigning
    [location], and there is no document and no warning. *)
Theorem parse_duplicate_keys
    (safeLoad : string -> Completion (option Yaml.YAMLDocument))
    (text : string) (config : option JSONDocumentConfig)
    (yamlDoc : Yaml.YAMLDocument) :
  safeLoad text = Normal (Some yamlDoc) ->
  let problem (e : Yaml.YAMLException) : IProblem :=
    let bufferLength :=
      Z.of_nat (String.length (Yaml.buffer (Yaml.mark e))) - 2 in
    {| message := Yaml.message e;
       code := None;
       problem_location :=
         {| loc_start := Z.min (Yaml.position (Yaml.mark e)) (bufferLength - 1);
            loc_end := bufferLength;
            loc_code := Some Undefined |} |} in
  let duplicate (e : Yaml.YAMLException) : bool :=
    String.eqb (Yaml.reason e) "duplicate key" in
  (buildable (Yaml.node yamlDoc) = false ->
   parse safeLoad text config
   = Abrupt (TypeError "Cannot set property 'location' of undefined"))
  /\ (forall doc,
        parse safeLoad text config = Normal doc ->
        warnings doc = map problem (filter duplicate (Yaml.errors yamlDoc))
        /\ errors doc
           = ((match root doc with
               | None => [expectedYaml (Yaml.node yamlDoc)]
               | Some _ => []
               end)
              ++ map problem
                   (filter (fun e => negb (duplicate e))
                           (Yaml.errors yamlDoc)))%list
        /\ (errors doc = [] <->
            root doc <> None
            /\ forall e, In e (Yaml.errors yamlDoc) ->
                 Yaml.reason e = "duplicate key")
        /\ (warnings doc <> [] <->
            exists e, In e (Yaml.errors yamlDoc)
                      /\ Yaml.reason e = "duplicate key")
        /\ ((exists e, In e (Yaml.errors yamlDoc)
                       /\ Yaml.reason e <> "duplicate key") ->
            errors doc <> [])).
Proof.
  intros L problem duplicate. split.
  - intros F. now apply parse_stops with (yamlDoc := yamlDoc).
  - intros doc H.
    destruct (parse_fields safeLoad text config yamlDoc doc L H) as [E W].
    change convertError with problem in E, W.
    change isDuplicateKey with duplicate in E, W.
    split; [exact W|]. split; [exact E|]. split; [|split].
    + rewrite E. split.
      * intros N. apply app_eq_nil in N as [N1 N2].
        split; [destruct (root doc); [discriminate | discriminate]|].
        apply map_eq_nil in N2. intros e He.
        pose proof (proj1 (filter_nil_iff _ _) N2 e He) as D.
        apply negb_false_iff in D. now apply String.eqb_eq.
      * intros [R A]. destruct (root doc); [|congruence]. simpl.
        replace (filter (fun e => negb (duplicate e)) (Yaml.errors yamlDoc))
          with (@nil Yaml.YAMLException); [reflexivity|].
        symmetry. apply filter_nil_iff. intros e He.
        apply negb_false_iff. apply String.eqb_eq. auto.
    + rewrite W. split.
      * intros N.
        destruct (filter duplicate (Yaml.errors yamlDoc)) as [|e es] eqn:F;
          [now destruct N|].
        assert (I : In e (filter duplicate (Yaml.errors yamlDoc)))
          by (rewrite F; now left).
        apply filter_In in I as [I D]. exists e. split; [exact I|].
        now apply String.eqb_eq.
      * intros (e & He & D) N. apply map_eq_nil in N.
        pose proof (proj1 (filter_nil_iff _ _) N e He) as X.
        apply String.eqb_eq in D. unfold duplicate in X. congruence.
    + intros (e & He & D) N. rewrite E in N.
      apply app_eq_nil in N as [_ N]. apply map_eq_nil in N.
      pose proof (proj1 (filter_nil_iff _ _) N e He) as X.
      apply negb_false_iff, String.eqb_eq in X. contradiction.
Qed.

Lemma parse_duplicate_keys_example :
  parse (fun _ => Normal (Some duplicateKeysWithAlias)) repeatedKeyAliasText
    None
  = Abrupt (TypeError "Cannot set property 'location' of undefined")
  /\ (forall doc,
        parse (fun _ => Normal (Some duplicateKeys)) repeatedKeyText None
        = Normal doc ->
        errors doc = [] /\ List.length (warnings doc) = 2%nat)
  /\ (forall doc,
        parse (fun _ => Normal (Some unbalancedBracket)) "[" None
        = Normal doc ->
        errors doc <> [] /\ warnings doc = []).
Proof.
  split; [|split].
  - destruct (parse_duplicate_keys
                (fun _ => Normal (Some duplicateKeysWithAlias))
                repeatedKeyAliasText None duplicateKeysWithAlias eq_refl)
      as (Stops & _).
    apply Stops. reflexivity.
  - intros doc H.
    destruct (parse_duplicate_keys (fun _ => Normal (Some duplicateKeys))
                repeatedKeyText None duplicateKeys eq_refl)
      as (_ & D).
    destruct (D doc H) as (W & _ & E & _).
    split; [|rewrite W; reflexivity].
    apply E. vm_compute in H. injection H as <-. split; [discriminate|].
    intros e [<-|[<-|[]]]; reflexivity.
  - intros doc H.
    destruct (parse_duplicate_keys (fun _ => Normal (Some unbalancedBracket))
                "[" None unbalancedBracket eq_refl)
      as (_ & D).
    destruct (D doc H) as (W & _ & _ & _ & E).
    split; [|rewrite W; reflexivity].
    apply E. eexists. split; [left; reflexivity | discriminate].
Defined.

(** ** [binarySearch] *)

Lemma sorted_items (array : list Z) :
  StronglySorted Z.le array ->
  forall i j, 0 <= i -> i <= j -> j < size array ->
  item array i <= item array j.
Proof.
  unfold item, size.
  induction 1 as [|a l _ IH Ha]; intros i j Hi Hij Hj; simpl in Hj; [lia|].
  destruct (Z.to_nat i) as [|i'] eqn:Ei, (Z.to_nat j) as [|j'] eqn:Ej; simpl.
  - lia.
  - rewrite Forall_forall in Ha. apply Ha, nth_In. lia.
  - lia.
  - specialize (IH (Z.of_nat i') (Z.of_nat j')).
    rewrite !Nat2Z.id in IH. apply IH; lia.
Qed.

Lemma item_In (array : list Z) (i : Z) :
  0 <= i < size array -> In (item array i) array.
Proof. unfold item, size. intros H. apply nth_In. lia. Qed.

Lemma In_item (array : list Z) (x : Z) :
  In x array -> exists i, 0 <= i < size array /\ item array i = x.
Proof.
  intros H. destruct (In_nth array x 0 H) as (n & Hn & E).
  exists (Z.of_nat n). unfold item, size. rewrite Nat2Z.id. split; [lia | auto].
Qed.

(** What the loop returns on a range that still brackets the target. *)
Lemma binarySearchLoop_spec (array : list Z) (sought : Z) :
  StronglySorted Z.le array ->
  forall fuel lower upper,
    0 <= lower -> lower <= upper + 1 -> upper < size array ->
    upper - lower + 1 <= Z.of_nat fuel ->
    (forall j, 0 <= j < lower -> item array j < sought) ->
    (forall j, upper < j < size array -> sought < item array j) ->
    let r := binarySearchLoop fuel array sought lower upper in
    (0 <= r < size array /\ item array r = sought)
    \/ (exists i, r = insertionPointReturnValue i
          /\ 0 <= i <= size array
          /\ (forall j, 0 <= j < i -> item array j < sought)
          /\ (forall j, i <= j < size array -> sought < item array j)).
Proof.
  intros Sorted fuel.
  induction fuel as [|fuel IH]; intros lower upper L0 LU U F Below Above.
  - simpl. right. exists lower. repeat split; auto; try lia.
    intros j Hj. apply Above. lia.
  - cbn [binarySearchLoop].
    destruct (Z.ltb_spec upper lower) as [E|E].
    + right. exists lower. repeat split; auto; try lia.
      intros j Hj. apply Above. lia.
    + assert (M : lower <= (lower + upper) / 2 <= upper).
      { split; [apply Z.div_le_lower_bound | apply Z.div_le_upper_bound];
          lia. }
      set (idx := (lower + upper) / 2) in *. cbv zeta.
      destruct (Z.eqb_spec (item array idx) sought) as [H|H].
      * left. split; [lia | assumption].
      * destruct (Z.ltb_spec (item array idx) sought) as [Lt|Ge].
        -- apply IH; try lia; [|assumption].
           intros j Hj.
           pose proof (sorted_items array Sorted j idx). lia.
        -- apply IH; try lia; [assumption|].
           intros j Hj.
           pose proof (sorted_items array Sorted idx j). lia.
Qed.

(** C4. On an ascending array, [binarySearch] returns the index of the
    target when the target is present.  When it is absent, it returns
    [insertionPointReturnValue i] for the index [i], between [0] and the
    length of the array, before which the target would be inserted;
    [insertionPoint] recovers [i] from that value, and the value is
    negative, so it is no index of the array, not even index [0]. *)
Theorem binarySearch_spec (array : list Z) (sought : Z) :
  StronglySorted Z.le array ->
  (In sought array ->
     0 <= binarySearch array sought < size array
     /\ item array (binarySearch array sought) = sought)
  /\ (~ In sought array ->
      exists i,
        0 <= i <= size array
        /\ binarySearch array sought = insertionPointReturnValue i
        /\ insertionPoint (binarySearch array sought) = i
        /\ (forall j, 0 <= j < i -> item array j < sought)
        /\ (forall j, i <= j < size array -> sought < item array j)
        /\ binarySearch array sought < 0)
  /\ (forall i, 0 <= i <= size array ->
        insertionPoint (insertionPointReturnValue i) = i
        /\ insertionPointReturnValue i < 0
        /\ forall hit, 0 <= hit < size array ->
             insertionPointReturnValue i <> hit)
  /\ (forall i j,
        insertionPointReturnValue i = insertionPointReturnValue j -> i = j).
Proof.
  intros Sorted.
  pose proof (binarySearchLoop_spec array sought Sorted
                (List.length array) 0 (size array - 1)) as H.
  fold (binarySearch array sought) in H. cbv zeta in H.
  assert (R : (0 <= binarySearch array sought < size array
               /\ item array (binarySearch array sought) = sought)
              \/ (exists i, binarySearch array sought
                            = insertionPointReturnValue i
                    /\ 0 <= i <= size array
                    /\ (forall j, 0 <= j < i -> item array j < sought)
                    /\ (forall j, i <= j < size array ->
                          sought < item array j))).
  { apply H; unfold size; try lia. }
  clear H. split; [|split; [|split]].
  - intros I. destruct R as [R|(i & E & Hi & Below & Above)]; [assumption|].
    destruct (In_item array sought I) as (k & Hk & Ek).
    destruct (Z.lt_ge_cases k i) as [C|C].
    + specialize (Below k). lia.
    + specialize (Above k). lia.
  - intros N. destruct R as [[Hr Er]|(i & E & Hi & Below & Above)].
    + exfalso. apply N. rewrite <- Er. now apply item_In.
    + exists i. rewrite E. unfold insertionPoint, insertionPointReturnValue.
      repeat split; auto; lia.
  - intros i Hi. unfold insertionPoint, insertionPointReturnValue.
    repeat split; try lia.
  - unfold insertionPointReturnValue. intros i j H. lia.
Qed.

Lemma binarySearch_spec_example :
  (0 <= binarySearch [3; 5; 7; 8; 9; 21; 34] 5 < size [3; 5; 7; 8; 9; 21; 34]
   /\ item [3; 5; 7; 8; 9; 21; 34] (binarySearch [3; 5; 7; 8; 9; 21; 34] 5)
      = 5)
  /\ binarySearch [3; 5; 7; 8; 9; 21; 34] 5 = 1
  /\ binarySearch [1; 2; 3] 4 = insertionPointReturnValue 3
  /\ binarySearch [1; 2; 3] 0 = insertionPointReturnValue 0
  /\ binarySearch [10; 20; 30] 25 = insertionPointReturnValue 2.
Proof.
  split; [|repeat split; reflexivity].
  apply (binarySearch_spec [3; 5; 7; 8; 9; 21; 34] 5).
  - repeat constructor; lia.
  - simpl; auto.
Defined.

(** ** [format] *)

Lemma append_assoc (a b c : string) : (a ++ b) ++ c = a ++ (b ++ c).
Proof. induction a as [|x a IH]; simpl; [reflexivity | now rewrite IH]. Qed.

Lemma append_nil_r (a : string) : a ++ "" = a.
Proof. induction a as [|x a IH]; simpl; [reflexivity | now rewrite IH]. Qed.

(** Joining with the end and start markers and closing with an end marker
    frames every body but the first, which still lacks its start
    marker. *)
Lemma join_frames (EOL : string) (body : string) (bodies : list string) :
  join ("..." ++ EOL ++ "---" ++ EOL) (body :: bodies) ++ "..." ++ EOL
  = body ++ "..." ++ EOL ++ concatAll (map (frame EOL) bodies).
Proof.
  revert body; induction bodies as [|b bs IH]; intros body.
  - simpl. now rewrite append_nil_r.
  - change (join ("..." ++ EOL ++ "---" ++ EOL) (body :: b :: bs))
      with (body ++ ("..." ++ EOL ++ "---" ++ EOL)
                 ++ join ("..." ++ EOL ++ "---" ++ EOL) (b :: bs)).
    rewrite !append_assoc. rewrite IH.
    cbn [map concatAll]. unfold frame.
    rewrite ?append_assoc. reflexivity.
Qed.

Lemma mapCompletion_normal {A B : Type} (f : A -> Completion B)
    (xs : list A) (ys : list B) :
  Forall2 (fun x y => f x = Normal y) xs ys -> mapCompletion f xs = Normal ys.
Proof.
  induction 1 as [|x y xs ys E _ IH]; simpl; [reflexivity|].
  now rewrite E, IH.
Qed.

Lemma mapCompletion_abrupt {A B : Type} (f : A -> Completion B)
    (pre : list A) (x : A) (post : list A) (e : Exception) :
  Forall (fun a => exists y, f a = Normal y) pre ->
  f x = Abrupt e ->
  mapCompletion f (pre ++ x :: post) = Abrupt e.
Proof.
  intros P E. induction P as [|a pre [y Ea] _ IH]; simpl.
  - now rewrite E.
  - now rewrite Ea, IH.
Qed.

Section FormatProperties.

Variable Value : Type.
Variable loadAll : string -> Completion (list Value).
Variable safeDump : Value -> Z -> Completion string.
Variable EOL : string.
Variable positionAt : string -> Z -> Position.

(** Exactly one document: its dump with the indent width asked for, or
    what the dump throws. *)
Lemma format_one_document (text : string) (options : FormattingOptions)
    (yaml : Value) :
  loadAll text = Normal [yaml] ->
  (forall body,
      safeDump yaml (tabSize options) = Normal body ->
      replacement (format loadAll safeDump EOL positionAt text options)
      = Some body)
  /\ (forall e,
        safeDump yaml (tabSize options) = Abrupt e ->
        format loadAll safeDump EOL positionAt text options = Abrupt e).
Proof.
  intros L. unfold replacement, format. rewrite L.
  split; intros x E; now rewrite E.
Qed.

(** X10. Two documents or more.  When every document has a dump, the
    output is the header, then a frame around each dump, in the order of
    the documents.  When a document has none, what its dump throws
    leaves [format], the first such document deciding. *)
Lemma format_documents (text : string) (options : FormattingOptions)
    (d1 d2 : Value) (ds : list Value) :
  loadAll text = Normal (d1 :: d2 :: ds) ->
  (forall bodies,
      Forall2 (fun d body => safeDump d (tabSize options) = Normal body)
              (d1 :: d2 :: ds) bodies ->
      replacement (format loadAll safeDump EOL positionAt text options)
      = Some ("%YAML 1.2" ++ EOL ++ concatAll (map (frame EOL) bodies)))
  /\ (forall dumped d rest e,
        d1 :: d2 :: ds = (dumped ++ d :: rest)%list ->
        Forall (fun x => exists body,
                  safeDump x (tabSize options) = Normal body) dumped ->
        safeDump d (tabSize options) = Abrupt e ->
        format loadAll safeDump EOL positionAt text options = Abrupt e).
Proof.
  intros L. unfold replacement, format. rewrite L. cbv iota beta zeta.
  split.
  - intros bodies F. rewrite (mapCompletion_normal _ _ _ F).
    inversion F as [|? b1 ? bs1 _ F1]; subst.
    inversion F1 as [|? b2 ? bs _ _]; subst.
    cbn [newText]. f_equal.
    rewrite join_frames. cbn [concatAll map]. unfold frame.
    rewrite ?append_assoc. reflexivity.
  - intros dumped d rest e E P A. rewrite E.
    now rewrite (mapCompletion_abrupt _ dumped d rest e P A).
Qed.

(** C6 at an input without documents: the output is the header followed
    by one frame around an empty body, although there is no document to
    frame. *)
Theorem format_no_document (text : string) (options : FormattingOptions) :
  loadAll text = Normal [] ->
  replacement (format loadAll safeDump EOL positionAt text options)
  = Some ("%YAML 1.2" ++ EOL ++ frame EOL "")
  /\ concatAll (map (frame EOL) []) = "".
Proof.
  intros L. unfold replacement, format. rewrite L. split; reflexivity.
Qed.

End FormatProperties.

Lemma format_no_document_example :
  replacement
    (format noDocuments (fun d _ => Normal d) LF
       (fun _ _ => {| line := 0; character := 0 |}) ""
       {| tabSize := 2; insertSpaces := true |})
  = Some ("%YAML 1.2" ++ LF ++ "---" ++ LF ++ "..." ++ LF).
Proof.
  apply (format_no_document string noDocuments (fun d _ => Normal d) LF
           (fun _ _ => {| line := 0; character := 0 |}) ""
           {| tabSize := 2; insertSpaces := true |}).
  reflexivity.
Defined.

Lemma format_documents_example :
  replacement
    (format twoDocuments (fun d _ => Normal d) LF
       (fun _ _ => {| line := 0; character := 0 |}) ""
       {| tabSize := 2; insertSpaces := true |})
  = Some ("%YAML 1.2" ++ LF
          ++ "---" ++ LF ++ "a: 1" ++ LF ++ "..." ++ LF
          ++ "---" ++ LF ++ "b: 2" ++ LF ++ "..." ++ LF)
  /\ format twoDocuments onlyFirstDumps LF
       (fun _ _ => {| line := 0; character := 0 |}) ""
       {| tabSize := 2; insertSpaces := true |}
     = Abrupt (Thrown "unacceptable kind of an object to dump").
Proof.
  split.
  - destruct (format_documents string twoDocuments (fun d _ => Normal d) LF
                (fun _ _ => {| line := 0; character := 0 |}) ""
                {| tabSize := 2; insertSpaces := true |}
                ("a: 1" ++ LF) ("b: 2" ++ LF) [] eq_refl) as [Framed _].
    rewrite (Framed ["a: 1" ++ LF; "b: 2" ++ LF]); [reflexivity|].
    repeat constructor.
  - destruct (format_documents string twoDocuments onlyFirstDumps LF
                (fun _ _ => {| line := 0; character := 0 |}) ""
                {| tabSize := 2; insertSpaces := true |}
                ("a: 1" ++ LF) ("b: 2" ++ LF) [] eq_refl) as [_ Throws].
    apply (Throws ["a: 1" ++ LF] ("b: 2" ++ LF) []); [reflexivity | |reflexivity].
    repeat constructor. eexists. reflexivity.
Defined.

(** ** Offset queries *)

(** Induction over a tree: a property of all children carries over to
    the node. *)
Lemma ASTNode_induction (P : ASTNode -> Prop) :
  (forall n, Forall P (getChildNodes n) -> P n) -> forall n, P n.
Proof.
  intros Step. fix IH 1. intros n. apply Step.
  destruct n as [h ps|h k v|h xs|h k v|h i v|h v|h]; simpl;
    try constructor.
  - induction ps as [|c cs IHcs]; constructor; auto.
  - apply IH.
  - constructor; [apply IH | constructor].
  - induction xs as [|c cs IHcs]; constructor; auto.
Qed.

Lemma findNode_children (incl : bool) (offset : Z) (n : ASTNode) :
  findNode incl offset n
  = if contains n offset incl then
      match firstSome (findNode incl offset) (getChildNodes n) with
      | Some item => Some item
      | None => Some n
      end
    else None.
Proof.
  assert (Scan : forall cs,
             (fix scan (cs : list ASTNode) : option ASTNode :=
                match cs with
                | [] => None
                | c :: rest =>
                    match findNode incl offset c with
                    | Some item => Some item
                    | None => scan rest
                    end
                end) cs
             = firstSome (findNode incl offset) cs).
  { induction cs as [|c cs IH]; simpl; [reflexivity|].
    destruct (findNode incl offset c); [reflexivity | apply IH]. }
  destruct n as [h ps|h k v|h xs|h k v|h i v|h v|h]; simpl;
    try reflexivity.
  - now rewrite Scan.
  - destruct (contains _ _ _); [|reflexivity].
    destruct (findNode incl offset k); [reflexivity|].
    destruct (findNode incl offset v); reflexivity.
  - now rewrite Scan.
Qed.

Lemma findPath_children (incl : bool) (offset : Z) (n : ASTNode) :
  findPath incl offset n
  = if contains n offset incl
    then n :: firstPath (findPath incl offset) (getChildNodes n)
    else [].
Proof.
  assert (Scan : forall cs,
             (fix scan (cs : list ASTNode) : list ASTNode :=
                match cs with
                | [] => []
                | c :: rest =>
                    match findPath incl offset c with
                    | [] => scan rest
                    | path => path
                    end
                end) cs
             = firstPath (findPath incl offset) cs).
  { induction cs as [|c cs IH]; simpl; [reflexivity|].
    destruct (findPath incl offset c); [apply IH | reflexivity]. }
  destruct n as [h ps|h k v|h xs|h k v|h i v|h v|h]; simpl;
    try reflexivity.
  - now rewrite Scan.
  - destruct (contains _ _ _); [|reflexivity].
    destruct (findPath incl offset k); [|reflexivity].
    destruct (findPath incl offset v); reflexivity.
  - now rewrite Scan.
Qed.

Lemma contains_inclusive (n : ASTNode) (offset : Z) :
  contains n offset false = true -> contains n offset true = true.
Proof.
  unfold contains. rewrite andb_false_l, orb_false_r. intros ->. reflexivity.
Qed.

Lemma contains_exclusive (n : ASTNode) (offset : Z) :
  contains n offset true = true -> offset < end_ (header n) ->
  contains n offset false = true.
Proof.
  unfold contains. rewrite andb_false_l, orb_false_r, andb_true_l.
  intros H L. apply orb_true_iff in H as [H|H]; [assumption|].
  apply Z.eqb_eq in H. lia.
Qed.

Lemma findNode_none (incl : bool) (offset : Z) (n : ASTNode) :
  findNode incl offset n = None <-> contains n offset incl = false.
Proof.
  rewrite findNode_children. destruct (contains n offset incl).
  - destruct (firstSome _ _); split; discriminate.
  - split; reflexivity.
Qed.

Lemma findPath_nil (incl : bool) (offset : Z) (n : ASTNode) :
  findPath incl offset n = [] <-> contains n offset incl = false.
Proof.
  rewrite findPath_children. destruct (contains n offset incl);
    split; try discriminate; reflexivity.
Qed.

Lemma findPath_head (incl : bool) (offset : Z) (n x : ASTNode)
    (rest : list ASTNode) :
  findPath incl offset n = x :: rest -> x = n.
Proof.
  rewrite findPath_children. destruct (contains n offset incl);
    [|discriminate]. now intros [= <-].
Qed.

Lemma firstSome_split {A B : Type} (f : A -> option B) (xs : list A) (b : B) :
  firstSome f xs = Some b ->
  exists pre c post,
    xs = (pre ++ c :: post)%list
    /\ Forall (fun x => f x = None) pre /\ f c = Some b.
Proof.
  induction xs as [|x xs IH]; simpl; [discriminate|].
  destruct (f x) as [y|] eqn:E.
  - intros [= <-]. exists [], x, xs. auto.
  - intros H. destruct (IH H) as (pre & c & post & -> & Hp & Hc).
    exists (x :: pre), c, post. auto.
Qed.

Lemma firstSome_skip {A B : Type} (f : A -> option B) (pre : list A) (c : A)
    (post : list A) :
  Forall (fun x => f x = None) pre ->
  firstSome f (pre ++ c :: post)
  = match f c with Some b => Some b | None => firstSome f post end.
Proof.
  induction 1 as [|x xs Hx _ IH]; simpl; [reflexivity|]. now rewrite Hx.
Qed.

Lemma firstSome_none {A B : Type} (f : A -> option B) (xs : list A) :
  firstSome f xs = None <-> Forall (fun x => f x = None) xs.
Proof.
  induction xs as [|x xs IH]; simpl.
  - split; auto.
  - destruct (f x) eqn:E.
    + split; [discriminate|]. intros H. inversion H; congruence.
    + rewrite IH. split; [auto|]. intros H. now inversion H.
Qed.

Lemma firstPath_split {A B : Type} (f : A -> list B) (xs : list A) (b : B)
    (bs : list B) :
  firstPath f xs = b :: bs ->
  exists pre c post,
    xs = (pre ++ c :: post)%list
    /\ Forall (fun x => f x = []) pre /\ f c = b :: bs.
Proof.
  induction xs as [|x xs IH]; simpl; [discriminate|].
  destruct (f x) as [|y ys] eqn:E.
  - intros H. destruct (IH H) as (pre & c & post & -> & Hp & Hc).
    exists (x :: pre), c, post. auto.
  - intros [= <- <-]. exists [], x, xs. auto.
Qed.

Lemma endsNested_children (n : ASTNode) :
  endsNested n = true ->
  Forall (fun c => end_ (header c) <= end_ (header n) /\ endsNested c = true)
         (getChildNodes n).
Proof.
  destruct n as [h ps|h k v|h xs|h k v|h i v|h v|h]; simpl; intros H;
    try constructor.
  - rewrite forallb_forall in H. apply Forall_forall. intros c Hc.
    specialize (H c Hc). apply andb_true_iff in H as [H1 H2].
    apply Z.leb_le in H1. auto.
  - repeat (apply andb_true_iff in H as [H ?]). apply Z.leb_le in H. auto.
  - repeat (apply andb_true_iff in H as [H ?]). constructor; [|constructor].
    match goal with L : (_ <=? _) = true |- _ => apply Z.leb_le in L end.
    auto.
  - rewrite forallb_forall in H. apply Forall_forall. intros c Hc.
    specialize (H c Hc). apply andb_true_iff in H as [H1 H2].
    apply Z.leb_le in H1. auto.
Qed.

(** The result of a query matches, and none of its children does. *)
Lemma findNode_deepest (incl : bool) (offset : Z) (n : ASTNode) :
  forall r, findNode incl offset n = Some r ->
  contains r offset incl = true
  /\ Forall (fun c => contains c offset incl = false) (getChildNodes r).
Proof.
  induction n as [n IH] using ASTNode_induction. intros r.
  rewrite findNode_children.
  destruct (contains n offset incl) eqn:C; [|discriminate].
  destruct (firstSome _ _) as [item|] eqn:F; intros [= <-].
  - apply firstSome_split in F as (pre & c & post & E & _ & Hc).
    rewrite Forall_forall in IH. apply (IH c); [|assumption].
    rewrite E. apply in_or_app. right. now left.
  - split; [assumption|]. apply firstSome_none in F.
    eapply Forall_impl; [|exact F]. intros c. apply findNode_none.
Qed.

(** The nodes of the descent end no later than the queried node. *)
Lemma findPath_ends (incl : bool) (offset : Z) (n : ASTNode) :
  endsNested n = true ->
  forall x, In x (findPath incl offset n) ->
  end_ (header x) <= end_ (header n).
Proof.
  induction n as [n IH] using ASTNode_induction. intros N x.
  rewrite findPath_children. destruct (contains n offset incl); [|intros []].
  intros [<-|H]; [lia|].
  destruct (firstPath _ _) as [|b bs] eqn:F; [destruct H|].
  apply firstPath_split in F as (pre & c & post & E & _ & Hc).
  pose proof (endsNested_children n N) as Ch.
  rewrite Forall_forall in IH, Ch.
  assert (I : In c (getChildNodes n)).
  { rewrite E. apply in_or_app. right. now left. }
  destruct (Ch c I) as [Le Nc]. rewrite <- Hc in H.
  specialize (IH c I Nc x H). lia.
Qed.

(** The query returns the last node of its descent. *)
Lemma findPath_last (incl : bool) (offset : Z) (n : ASTNode) :
  forall pre r, findPath incl offset n = (pre ++ [r])%list ->
  findNode incl offset n = Some r.
Proof.
  induction n as [n IH] using ASTNode_induction. intros pre r.
  rewrite findPath_children, findNode_children.
  destruct (contains n offset incl); [|destruct pre; discriminate].
  destruct (firstPath _ _) as [|b bs] eqn:F.
  - assert (X : firstSome (findNode incl offset) (getChildNodes n) = None).
    { apply firstSome_none. clear IH.
      induction (getChildNodes n) as [|c cs IHcs]; constructor.
      - simpl in F. destruct (findPath incl offset c) eqn:P; [|discriminate].
        apply findNode_none. now apply findPath_nil.
      - apply IHcs. simpl in F.
        destruct (findPath incl offset c); [assumption | discriminate]. }
    rewrite X. destruct pre as [|a [|a' pre]]; simpl; intros [= E];
      congruence.
  - apply firstPath_split in F as (ps & c & post & E & Hp & Hc).
    destruct pre as [|a pre]; [intros [= _ ?]; discriminate|].
    intros [= _ Hr]. rewrite E.
    rewrite firstSome_skip.
    + rewrite Forall_forall in IH.
      rewrite (IH c) with (pre := pre) (r := r); [reflexivity| |congruence].
      rewrite E. apply in_or_app. right. now left.
    + eapply Forall_impl; [|exact Hp]. intros a0 Ha. simpl in Ha.
      apply findNode_none. now apply findPath_nil.
Qed.

(** Consecutive nodes of a descent are a container and one of its
    children. *)
Lemma findPath_child (incl : bool) (offset : Z) (n : ASTNode) :
  forall pre p r, findPath incl offset n = (pre ++ [p; r])%list ->
  In r (getChildNodes p).
Proof.
  induction n as [n IH] using ASTNode_induction. intros pre p r.
  rewrite findPath_children.
  destruct (contains n offset incl); [|destruct pre; discriminate].
  destruct (firstPath _ _) as [|b bs] eqn:F.
  - destruct pre as [|a [|a' pre]]; discriminate.
  - apply firstPath_split in F as (ps & c & post & E & Hp & Hc).
    assert (I : In c (getChildNodes n)).
    { rewrite E. apply in_or_app. right. now left. }
    destruct pre as [|a pre].
    + intros [= <- <- ->]. apply findPath_head in Hc as ->. assumption.
    + intros [= _ Hr]. rewrite Forall_forall in IH.
      apply (IH c I pre). congruence.
Qed.

Lemma findNode_path (incl : bool) (offset : Z) (n : ASTNode) :
  forall r, findNode incl offset n = Some r ->
  exists pre, findPath incl offset n = (pre ++ [r])%list.
Proof.
  induction n as [n IH] using ASTNode_induction. intros r.
  rewrite findPath_children, findNode_children.
  destruct (contains n offset incl); [|discriminate].
  destruct (firstSome _ _) as [item|] eqn:F; intros [= <-].
  - apply firstSome_split in F as (ps & c & post & E & Hp & Hc).
    rewrite Forall_forall in IH.
    destruct (IH c) with (r := item) as [pre P]; [|assumption|].
    { rewrite E. apply in_or_app. right. now left. }
    exists (n :: pre). simpl. f_equal. rewrite E.
    clear E. induction Hp as [|x xs Hx _ IHx]; simpl.
    + rewrite P. destruct pre; reflexivity.
    + apply findNode_none, findPath_nil in Hx. now rewrite Hx.
  - exists []. simpl. f_equal.
    apply firstSome_none in F. clear IH.
    induction F as [|x xs Hx _ IHx]; simpl; [reflexivity|].
    apply findNode_none, findPath_nil in Hx. now rewrite Hx.
Qed.

Lemma findNode_ends (incl : bool) (offset : Z) (n r : ASTNode) :
  endsNested n = true -> findNode incl offset n = Some r ->
  end_ (header r) <= end_ (header n).
Proof.
  intros N H. destruct (findNode_path incl offset n r H) as [pre P].
  apply (findPath_ends incl offset n N). rewrite P.
  apply in_or_app. right. now left.
Qed.

(** An offset before the end of the end-inclusive result: the exclusive
    query returns the same node. *)
Lemma findNode_inside (offset : Z) (n : ASTNode) :
  endsNested n = true ->
  forall r, findNode true offset n = Some r ->
  offset < end_ (header r) ->
  findNode false offset n = Some r.
Proof.
  induction n as [n IH] using ASTNode_induction. intros N r H L.
  pose proof (findNode_ends true offset n r N H) as Le.
  pose proof (endsNested_children n N) as Ch.
  rewrite findNode_children in H |- *.
  destruct (contains n offset true) eqn:C; [|discriminate].
  rewrite (contains_exclusive n offset C) by lia.
  destruct (firstSome (findNode true offset) _) as [item|] eqn:F;
    injection H as <-.
  - apply firstSome_split in F as (ps & c & post & E & Hp & Hc).
    rewrite Forall_forall in IH, Ch.
    assert (I : In c (getChildNodes n)).
    { rewrite E. apply in_or_app. right. now left. }
    rewrite E, firstSome_skip.
    + now rewrite (IH c I (proj2 (Ch c I)) item Hc L).
    + eapply Forall_impl; [|exact Hp]. intros a Ha. simpl in Ha.
      apply findNode_none. apply findNode_none in Ha.
      destruct (contains a offset false) eqn:X; [|reflexivity].
      apply contains_inclusive in X. congruence.
  - apply firstSome_none in F.
    assert (X : firstSome (findNode false offset) (getChildNodes n) = None).
    { apply firstSome_none. eapply Forall_impl; [|exact F].
      intros a Ha. simpl in Ha.
      apply findNode_none. apply findNode_none in Ha.
      destruct (contains a offset false) eqn:X; [|reflexivity].
      apply contains_inclusive in X. congruence. }
    now rewrite X.
Qed.

(** An offset at which the end-inclusive descent ends in [r] below [p]:
    when [p] extends beyond the offset and no child of [p] has the offset
    in its half-open span, the exclusive query returns [p]. *)
Lemma findNode_container (offset : Z) (n : ASTNode) :
  endsNested n = true ->
  forall pre p r, findPath true offset n = (pre ++ [p; r])%list ->
  offset < end_ (header p) ->
  Forall (fun c => contains c offset false = false) (getChildNodes p) ->
  findNode false offset n = Some p.
Proof.
  induction n as [n IH] using ASTNode_induction. intros N pre p r P L Q.
  assert (Le : end_ (header p) <= end_ (header n)).
  { apply (findPath_ends true offset n N). rewrite P.
    apply in_or_app. right. now left. }
  pose proof (endsNested_children n N) as Ch.
  rewrite findPath_children in P. rewrite findNode_children.
  destruct (contains n offset true) eqn:C; [|destruct pre; discriminate].
  rewrite (contains_exclusive n offset C) by lia.
  destruct pre as [|a pre].
  - injection P as <- _.
    assert (X : firstSome (findNode false offset) (getChildNodes n) = None).
    { apply firstSome_none. eapply Forall_impl; [|exact Q].
      intros a. apply findNode_none. }
    now rewrite X.
  - injection P as _ P.
    destruct (firstPath _ _) as [|b bs] eqn:F; [destruct pre; discriminate|].
    apply firstPath_split in F as (ps & c & post & E & Hp & Hc).
    rewrite Forall_forall in IH, Ch.
    assert (I : In c (getChildNodes n)).
    { rewrite E. apply in_or_app. right. now left. }
    rewrite E, firstSome_skip.
    + rewrite (IH c I (proj2 (Ch c I)) pre p r); auto. congruence.
    + eapply Forall_impl; [|exact Hp]. intros x Hx. simpl in Hx.
      apply findNode_none. apply findPath_nil in Hx.
      destruct (contains x offset false) eqn:X; [|reflexivity].
      apply contains_inclusive in X. congruence.
Qed.

(** C5, as the model has it.  Each query returns a node that matches in
    its own sense and none of whose children does.  While the offset lies
    before the end of the node the end-inclusive query returns, the
    exclusive query returns that same node.  When the offset is the end
    of the node [r] the end-inclusive query returns, the exclusive query
    does not return [r]; and when the end-inclusive descent reaches [r]
    directly below a container [p], the exclusive query returns [p]
    provided [p] extends beyond the offset and no child of [p] has the
    offset in its half-open span. *)
Theorem offset_queries (root : ASTNode) (offset : Z) :
  endsNested root = true ->
  (forall r,
      getNodeFromOffset root offset = Some r ->
      contains r offset false = true
      /\ Forall (fun c => contains c offset false = false) (getChildNodes r))
  /\ (forall r,
        getNodeFromOffsetEndInclusive root offset = Some r ->
        contains r offset true = true
        /\ Forall (fun c => contains c offset true = false) (getChildNodes r))
  /\ (forall r,
        getNodeFromOffsetEndInclusive root offset = Some r ->
        offset < end_ (header r) ->
        getNodeFromOffset root offset = Some r)
  /\ (forall pre p r,
        findPath true offset root = (pre ++ [p; r])%list ->
        offset = end_ (header r) ->
        getNodeFromOffsetEndInclusive root offset = Some r
        /\ In r (getChildNodes p)
        /\ getNodeFromOffset root offset <> Some r
        /\ (offset < end_ (header p) ->
            Forall (fun c => contains c offset false = false)
                   (getChildNodes p) ->
            getNodeFromOffset root offset = Some p))
  /\ (forall r,
        getNodeFromOffsetEndInclusive root offset = Some r ->
        offset = end_ (header r) ->
        getNodeFromOffset root offset <> Some r).
Proof.
  intros N. unfold getNodeFromOffset, getNodeFromOffsetEndInclusive.
  split; [|split; [|split; [|split]]].
  - intros r. apply findNode_deepest.
  - intros r. apply findNode_deepest.
  - intros r. apply findNode_inside. assumption.
  - intros pre p r P E. split; [|split; [|split]].
    + apply findPath_last with (pre := (pre ++ [p])%list).
      now rewrite <- app_assoc.
    + eapply findPath_child; eassumption.
    + intros H. apply findNode_deepest in H as [H _].
      unfold contains in H. rewrite andb_false_l, orb_false_r in H.
      apply andb_true_iff in H as [_ H]. apply Z.ltb_lt in H. lia.
    + intros L Q. eapply findNode_container; eassumption.
  - intros r _ E H. apply findNode_deepest in H as [H _].
    unfold contains in H. rewrite andb_false_l, orb_false_r in H.
    apply andb_true_iff in H as [_ H]. apply Z.ltb_lt in H. lia.
Qed.

Lemma offset_queries_example :
  treeOf flowMapping = Some flowTree
  /\ describe (getNodeFromOffsetEndInclusive flowTree 7)
     = Some ("boolean", 5, 9, 3%nat, Some 2%nat)
  /\ getNodeFromOffset flowTree 7 = Some flowValueA
  /\ describe (getNodeFromOffsetEndInclusive flowTree 4)
     = Some ("string", 1, 4, 1%nat, Some 2%nat)
  /\ getNodeFromOffset flowTree 4 = Some flowPropertyA
  /\ describe (Some flowPropertyA) = Some ("property", 1, 9, 2%nat, Some O).
Proof.
  destruct (offset_queries flowTree 7 eq_refl) as (_ & _ & Inside & _).
  destruct (offset_queries flowTree 4 eq_refl) as (_ & _ & _ & AtEnd & _).
  destruct (AtEnd [flowTree] flowPropertyA flowKeyA eq_refl eq_refl)
    as (_ & _ & _ & Container).
  split; [reflexivity|]. split; [reflexivity|].
  split; [apply (Inside flowValueA eq_refl); vm_compute; reflexivity|].
  split; [reflexivity|].
  split; [|reflexivity].
  apply Container; [vm_compute; reflexivity|].
  repeat constructor.
Defined.

(** C5, as stated, fails.  In [{'a':true,'b':1}] the offset 9 is the end
    of the value [true], which the end-inclusive query returns; the
    property the value belongs to ends there too, so the exclusive query
    returns the object, which is neither the parent the value refers to
    nor the node that holds it. *)
Lemma offset_queries_shared_end :
  treeOf flowMapping = Some flowTree
  /\ exists r q,
       getNodeFromOffsetEndInclusive flowTree 9 = Some r
       /\ end_ (header r) = 9
       /\ getNodeFromOffset flowTree 9 = Some q
       /\ type r = "boolean" /\ type q = "object"
       /\ parent (header r) <> Some (self (header q))
       /\ ~ In r (getChildNodes q).
Proof.
  split; [reflexivity|].
  exists flowValueA, flowTree.
  repeat split; try reflexivity.
  - vm_compute. discriminate.
  - vm_compute. intros [H|[H|[]]]; discriminate.
Qed.

(** A property whose value is elided is never the end-inclusive result at
    its own end: the synthesized [null] node spans the entry up to that
    end, so the descent ends in the key or in that node. *)
Lemma elided_value_end_inclusive (p : option NodeId) (s e : Z)
    (key : Yaml.YAMLScalar) (st : NodeId) :
  exists property r st',
    recursivelyBuildAst p (Some (Yaml.YAMLMapping s e key None)) st
    = Normal (Some property, st')
    /\ type property = "property"
    /\ end_ (header property) = e
    /\ getNodeFromOffsetEndInclusive property e = Some r
    /\ (type r = "string" \/ type r = "null").
Proof.
  unfold recursivelyBuildAst. simpl. unfold bind, new, ret. simpl.
  destruct ((Yaml.startPosition key <=? e) && (e <? Yaml.endPosition key)
            || (e =? Yaml.endPosition key)) eqn:K;
    eexists _, _, _; (split; [reflexivity|]);
    (split; [reflexivity|]); (split; [reflexivity|]);
    unfold getNodeFromOffsetEndInclusive; simpl; unfold contains; simpl;
    rewrite Z.eqb_refl, !orb_true_r, K.
  - split; [reflexivity | now left].
  - split; [reflexivity | now right].
Qed.

(** Where the container has a child with the offset in its span, the
    exclusive query goes to that child: in the two lines [a: 1] and [b:]
    the offset 6 is the end of the key [b], which the end-inclusive query
    returns, and the exclusive query returns the [null] leaf that stands
    for the elided value and spans the entry. *)
Lemma elided_value_exclusive :
  describe (query getNodeFromOffsetEndInclusive (treeOf mapWithElidedValue) 6)
  = Some ("string", 5, 6, 4%nat, Some 5%nat)
  /\ describe (query getNodeFromOffset (treeOf mapWithElidedValue) 6)
     = Some ("null", 5, 7, 6%nat, Some O).
Proof. split; reflexivity. Qed.

(** * Further properties of the builder and of [parse] *)

(** X1. [parse] has four outcomes.  What the tokenizer throws leaves it
    unchanged; when the tokenizer hands back nothing it ends with the
    [TypeError] of reading [startPosition]; when, at any depth of the
    node graph, an item of a sequence is absent or a reference, or the
    value of a mapping is a reference, it ends with the [TypeError] of
    assigning the location; and in every other case it returns a
    document, with a root unless the root of the graph is a reference. *)
Theorem parse_outcome
    (safeLoad : string -> Completion (option Yaml.YAMLDocument))
    (text : string) (config : option JSONDocumentConfig) :
  match safeLoad text with
  | Abrupt e => parse safeLoad text config = Abrupt e
  | Normal None => parse safeLoad text config = Abrupt cannotReadStartPosition
  | Normal (Some yamlDoc) =>
      if buildable (Yaml.node yamlDoc)
      then exists doc,
             parse safeLoad text config = Normal doc
             /\ (root doc = None <-> present (Yaml.node yamlDoc) = false)
      else parse safeLoad text config = Abrupt cannotSetLocation
  end.
Proof.
  destruct (safeLoad text) as [[yamlDoc|]|e] eqn:L.
  - destruct (buildable (Yaml.node yamlDoc)) eqn:F.
    + destruct (parse_normal safeLoad text config yamlDoc L F)
        as (r & E & R). eexists. split; [exact E | exact R].
    + now apply parse_stops with (yamlDoc := yamlDoc).
  - unfold parse. rewrite L. reflexivity.
  - unfold parse. now rewrite L.
Qed.

(** ** What the builder returns, case by case *)

Lemma bind_inv {A B : Type} (c : Build A) (k : A -> Build B)
    (st st' : NodeId) (b : B) :
  bind c k st = Normal (b, st') ->
  exists a st1, c st = Normal (a, st1) /\ k a st1 = Normal (b, st').
Proof.
  unfold bind. destruct (c st) as [[a st1]|e]; [eauto | discriminate].
Qed.

Lemma buildNode_map (p : option NodeId) (s e : Z)
    (mappings : list Yaml.YAMLNode) (st st' : NodeId) (r : option ASTNode) :
  buildNode p (Yaml.YamlMap s e mappings) st = Normal (r, st') ->
  exists properties,
    forEachMapping (buildNode (Some st)) mappings [] (S st)
    = Normal (properties, st')
    /\ r = Some (ObjectASTNode
                   {| self := st; parent := p; location := None;
                      start := s; end_ := e |} properties).
Proof.
  simpl. intros H. apply bind_inv in H as (h & st1 & N & H).
  injection N as <- <-. simpl in H.
  apply bind_inv in H as (properties & st2 & L & H).
  injection H as <- <-. eauto.
Qed.

Lemma buildNode_sequence (p : option NodeId) (s e : Z)
    (items : list (option Yaml.YAMLNode)) (st st' : NodeId)
    (r : option ASTNode) :
  buildNode p (Yaml.YAMLSequence s e items) st = Normal (r, st') ->
  exists children,
    forEachItem (whenPresent (buildNode (Some st))) items 0 [] (S st)
    = Normal (children, st')
    /\ r = Some (ArrayASTNode
                   {| self := st; parent := p; location := None;
                      start := s; end_ := e |} children).
Proof.
  simpl. intros H. apply bind_inv in H as (h & st1 & N & H).
  injection N as <- <-. simpl in H.
  apply bind_inv in H as (children & st2 & L & H).
  injection H as <- <-. eauto.
Qed.

Lemma buildNode_mapping (p : option NodeId) (s e : Z) (key : Yaml.YAMLScalar)
    (value : option Yaml.YAMLNode) (st st' : NodeId) (r : option ASTNode) :
  buildNode p (Yaml.YAMLMapping s e key value) st = Normal (r, st') ->
  exists valueNode,
    match value with
    | Some v =>
        buildNode (Some (S st)) v (S (S st)) = Normal (Some valueNode, st')
    | None =>
        st' = S (S (S st))
        /\ valueNode
           = NullASTNode {| self := S (S st); parent := p;
                            location := nameOf (Yaml.value key);
                            start := s; end_ := e |}
    end
    /\ r = Some (PropertyASTNode
                   {| self := S st; parent := p; location := None;
                      start := Yaml.startPosition key; end_ := e |}
                   (StringASTNode
                      {| self := st; parent := Some (S st);
                         location := nameOf (Yaml.value key);
                         start := Yaml.startPosition key;
                         end_ := Yaml.endPosition key |}
                      true (Yaml.value key))
                   (setLocation (nameOf (Yaml.value key)) valueNode)).
Proof.
  simpl. intros H. apply bind_inv in H as (hk & st1 & N & H).
  injection N as <- <-. simpl in H.
  apply bind_inv in H as (hp & st2 & N & H).
  injection N as <- <-. simpl in H.
  apply bind_inv in H as (vn & st3 & V & H).
  destruct vn as [vn|]; [|discriminate]. injection H as <- <-.
  exists vn. split; [|reflexivity].
  destruct value as [v|]; [exact V|].
  apply bind_inv in V as (hn & st4 & N & V).
  injection N as <- <-. injection V as <- <-. split; reflexivity.
Qed.

(** The header of a node the builder returns. *)
Lemma built_header (p : option NodeId) (n : Yaml.YAMLNode)
    (st st' : NodeId) (node : ASTNode) :
  buildNode p n st = Normal (Some node, st') ->
  parent (header node) = p
  /\ start (header node) = builtStart n
  /\ end_ (header node) = Yaml.nodeEnd n
  /\ location (header node) = None.
Proof.
  destruct n as [s e ms|s e k v|s e items|i|s e a|s e]; intros H.
  - apply buildNode_map in H as (ps & _ & [= ->]). repeat split.
  - apply buildNode_mapping in H as (vn & _ & [= ->]). repeat split.
  - apply buildNode_sequence in H as (cs & _ & [= ->]). repeat split.
  - simpl in H. destruct (buildScalar_normal p i st) as (leaf & E & _ & Hh).
    rewrite E in H. injection H as <- <-. rewrite Hh. repeat split.
  - discriminate.
  - discriminate.
Qed.

(** X2. The node built for a node of the graph carries the parent it was
    built under and the offsets of its source: it ends where the source
    ends and starts where the source starts, a property at the start of
    its key. *)
Theorem buildNode_header (p : option NodeId) (n : Yaml.YAMLNode)
    (st st' : NodeId) (node : ASTNode) :
  buildNode p n st = Normal (Some node, st') ->
  parent (header node) = p
  /\ start (header node) = builtStart n
  /\ end_ (header node) = Yaml.nodeEnd n
  /\ location (header node) = None.
Proof.
  destruct n as [s e ms|s e k v|s e items|i|s e a|s e]; intros H.
  - apply buildNode_map in H as (ps & _ & [= ->]). repeat split.
  - apply buildNode_mapping in H as (vn & _ & [= ->]). repeat split.
  - apply buildNode_sequence in H as (cs & _ & [= ->]). repeat split.
  - simpl in H. destruct (buildScalar_normal p i st) as (leaf & E & _ & Hh).
    rewrite E in H. injection H as <- <-. rewrite Hh. repeat split.
  - discriminate.
  - discriminate.
Qed.

Lemma buildNode_header_example :
  exists node st',
    buildNode (Some 7%nat) (Yaml.YAMLMapping 5 9 (plain 6 7 "b") None) 8%nat
    = Normal (Some node, st')
    /\ parent (header node) = Some 7%nat
    /\ start (header node) = 6 /\ end_ (header node) = 9
    /\ location (header node) = None.
Proof.
  eexists _, _. split; [vm_compute; reflexivity|].
  apply (buildNode_header (Some 7%nat)
           (Yaml.YAMLMapping 5 9 (plain 6 7 "b") None) 8%nat 11%nat).
  vm_compute. reflexivity.
Defined.

(** ** The loops over items and mappings *)

Lemma whenPresent_built (build : Yaml.YAMLNode -> Build (option ASTNode))
    (item : option Yaml.YAMLNode) (st st' : NodeId) (c : ASTNode) :
  whenPresent build item st = Normal (Some c, st') ->
  exists n, item = Some n /\ build n st = Normal (Some c, st').
Proof. destruct item as [n|]; simpl; [eauto | discriminate]. Qed.

Lemma forEachItem_result
    (build : option Yaml.YAMLNode -> Build (option ASTNode))
    (items : list (option Yaml.YAMLNode)) :
  forall count children st out st',
    forEachItem build items count children st = Normal (out, st') ->
    exists built,
      out = (children ++ built)%list
      /\ Forall2 (fun item c =>
                    exists c0 st0 st1,
                      build item st0 = Normal (Some c0, st1)
                      /\ exists l, c = setLocation l c0) items built
      /\ forall i, (i < List.length items)%nat ->
           forall d, location (header (nth i built d))
                     = Some (Index (count + Z.of_nat i)).
Proof.
  induction items as [|item rest IH]; intros count children st out st' H;
    simpl in H.
  - injection H as <- <-. exists []. rewrite app_nil_r.
    split; [reflexivity|]. split; [constructor|]. simpl. lia.
  - apply bind_inv in H as (r & st1 & B & H).
    destruct r as [c0|]; [|discriminate].
    apply IH in H as (built & -> & F & L).
    exists (setLocation (Some (Index count)) c0 :: built).
    split; [now rewrite <- app_assoc|]. split.
    + constructor; [|assumption]. eauto 7.
    + intros [|i] Hi d; simpl.
      * rewrite (proj1 (proj2 (proj2 (header_setLocation _ _)))).
        do 2 f_equal. lia.
      * rewrite L by (simpl in Hi; lia). do 2 f_equal. lia.
Qed.

Lemma forEachMapping_result (build : Yaml.YAMLNode -> Build (option ASTNode))
    (mappings : list Yaml.YAMLNode) :
  Forall (fun m => forall st r st',
              build m st = Normal (r, st') -> r <> None) mappings ->
  forall properties st out st',
    forEachMapping build mappings properties st = Normal (out, st') ->
    exists built,
      out = (properties ++ built)%list
      /\ Forall2 (fun m c => exists st0 st1,
                    build m st0 = Normal (Some c, st1)) mappings built.
Proof.
  induction 1 as [|m rest Hm _ IH]; intros properties st out st' H;
    simpl in H.
  - injection H as <- <-. exists []. rewrite app_nil_r.
    split; [reflexivity | constructor].
  - apply bind_inv in H as (r & st1 & B & H).
    destruct r as [c|]; [|now destruct (Hm _ _ _ B)].
    apply IH in H as (built & -> & F).
    exists (c :: built). split; [simpl; now rewrite <- app_assoc|].
    constructor; eauto.
Qed.

Lemma Forall2_length_eq {A B : Type} (R : A -> B -> Prop) (xs : list A)
    (ys : list B) :
  Forall2 R xs ys -> List.length xs = List.length ys.
Proof. induction 1; simpl; congruence. Qed.

(** X3. A sequence is built into an array with one child for each item,
    in the order of the items, none of which is absent; the child at
    index [i] has the location [i], the array as its parent and the span
    of the item it was built from. *)
Theorem buildNode_sequence_items (p : option NodeId) (s e : Z)
    (items : list (option Yaml.YAMLNode)) (st st' : NodeId) (node : ASTNode) :
  buildNode p (Yaml.YAMLSequence s e items) st = Normal (Some node, st') ->
  exists h children,
    node = ArrayASTNode h children
    /\ List.length children = List.length items
    /\ Forall2 (fun item c =>
                  exists n,
                    item = Some n
                    /\ parent (header c) = Some (self h)
                    /\ start (header c) = builtStart n
                    /\ end_ (header c) = Yaml.nodeEnd n) items children
    /\ forall i, (i < List.length items)%nat ->
         forall d, location (header (nth i children d))
                   = Some (Index (Z.of_nat i)).
Proof.
  intros H. apply buildNode_sequence in H as (children & L & [= ->]).
  apply forEachItem_result in L as (built & -> & F & Loc). simpl.
  eexists _, built. split; [reflexivity|].
  split; [symmetry; eapply Forall2_length_eq; eassumption|]. split.
  - eapply Forall2_impl; [|exact F]. intros item c (c0 & st0 & st1 & B & l & ->).
    apply whenPresent_built in B as (n & -> & B).
    destruct (built_header _ _ _ _ _ B) as (P & S & E & _).
    destruct (header_setLocation l c0) as (_ & P' & _ & S' & E').
    exists n. simpl. rewrite P', S', E'. auto.
  - intros i Hi d. rewrite (Loc i Hi d). reflexivity.
Qed.

Lemma buildNode_sequence_items_example :
  exists h children,
    treeOf nestedSequence = Some (ArrayASTNode h children)
    /\ List.length children = 3%nat
    /\ map (fun c => location (header c)) children
       = [Some (Index 0); Some (Index 1); Some (Index 2)]
    /\ map type children = ["number"; "array"; "string"].
Proof.
  destruct (buildNode_sequence_items None 0 18
              [Some (Yaml.Scalar (plain 1 2 "1"));
               Some (Yaml.YAMLSequence 4 13
                       [Some (Yaml.Scalar (plain 5 9 "true"));
                        Some (Yaml.Scalar (plain 11 12 "~"))]);
               Some (Yaml.Scalar (quoted 14 17 "x"))] O 6%nat
              (match treeOf nestedSequence with
               | Some t => t
               | None => flowTree
               end) eq_refl) as (h & children & E & L & _).
  exists h, children. split; [rewrite <- E; reflexivity|].
  split; [exact L|].
  vm_compute in E. injection E as <- <-. split; reflexivity.
Defined.

Lemma mapping_built (q : option NodeId) (m : Yaml.YAMLNode) (st st' : NodeId)
    (r : option ASTNode) :
  isMapping m = true -> buildNode q m st = Normal (r, st') ->
  exists c, r = Some c
    /\ type c = "property"
    /\ propertyKey c = mappingKey m
    /\ valueLocation c = option_map nameOf (mappingKey m).
Proof.
  destruct m as [s e ms|s e k v|s e items|i|s e a|s e]; try discriminate.
  intros _ H. apply buildNode_mapping in H as (vn & _ & ->).
  eexists. split; [reflexivity|]. split; [reflexivity|].
  split; [reflexivity|]. simpl.
  now rewrite (proj1 (proj2 (proj2 (header_setLocation _ _)))).
Qed.

(** X4. A map is built into an object with one property for each of its
    mappings, in their order and with repeated keys kept: the key texts of
    the properties are the key texts of the mappings, each value has the
    key text as its location, and each property has the object as its
    parent. *)
Theorem buildNode_map_properties (p : option NodeId) (s e : Z)
    (mappings : list Yaml.YAMLNode) (st st' : NodeId) (node : ASTNode) :
  Forall (fun m => isMapping m = true) mappings ->
  buildNode p (Yaml.YamlMap s e mappings) st = Normal (Some node, st') ->
  exists h properties,
    node = ObjectASTNode h properties
    /\ map propertyKey properties = map mappingKey mappings
    /\ map valueLocation properties
       = map (fun m => option_map nameOf (mappingKey m)) mappings
    /\ Forall (fun c => type c = "property"
                        /\ parent (header c) = Some (self h)) properties.
Proof.
  intros M H. apply buildNode_map in H as (properties & L & [= ->]).
  apply forEachMapping_result in L as (built & -> & F).
  - simpl. eexists _, built. split; [reflexivity|].
    clear -M F. induction F as [|m c ms cs (st0 & st1 & B) _ IH]; simpl.
    + repeat split. constructor.
    + inversion M as [|? ? Mm Mms]; subst.
      destruct (IH Mms) as (K & V & P).
      destruct (mapping_built _ _ _ _ _ Mm B) as (c' & [= <-] & T & K' & V').
      destruct (built_header _ _ _ _ _ B) as (Pc & _).
      rewrite K, V, K', V'. repeat split. constructor; auto.
  - eapply Forall_impl; [|exact M]. intros m Mm st0 r st1 B.
    destruct (mapping_built _ _ _ _ _ Mm B) as (c & -> & _). discriminate.
Qed.

Lemma buildNode_map_properties_example :
  exists h properties,
    treeOf (Yaml.node duplicateKeys) = Some (ObjectASTNode h properties)
    /\ map propertyKey properties = [Some (Some "a"); Some (Some "a")]
    /\ map valueLocation properties
       = [Some (Some (Name "a")); Some (Some (Name "a"))].
Proof.
  destruct (buildNode_map_properties None 0 9
              [Yaml.YAMLMapping 0 4 (plain 0 1 "a")
                 (Some (Yaml.Scalar (plain 3 4 "1")));
               Yaml.YAMLMapping 5 9 (plain 5 6 "a")
                 (Some (Yaml.Scalar (plain 8 9 "2")))] O 7%nat
              (match treeOf (Yaml.node duplicateKeys) with
               | Some t => t
               | None => flowTree
               end))
    as (h & properties & E & K & V & _).
  - repeat constructor.
  - reflexivity.
  - exists h, properties. split; [rewrite <- E; reflexivity|].
    split; [exact K | exact V].
Defined.

(** ** Invariants of the tree the builder returns *)

Lemma forEachMapping_built (build : Yaml.YAMLNode -> Build (option ASTNode))
    (mappings : list Yaml.YAMLNode) :
  forall properties st out st',
    forEachMapping build mappings properties st = Normal (out, st') ->
    exists built,
      out = (properties ++ built)%list
      /\ Forall (fun c => exists m st0 st1,
                   In m mappings /\ build m st0 = Normal (Some c, st1)) built.
Proof.
  induction mappings as [|m rest IH]; intros properties st out st' H;
    simpl in H.
  - injection H as <- <-. exists []. rewrite app_nil_r.
    split; [reflexivity | constructor].
  - apply bind_inv in H as (r & st1 & B & H).
    apply IH in H as (built & -> & F).
    assert (F' : Forall (fun c => exists m0 st0 st2,
                           In m0 (m :: rest)
                           /\ build m0 st0 = Normal (Some c, st2)) built).
    { eapply Forall_impl; [|exact F].
      intros c (m0 & st0 & st2 & I & E). exists m0, st0, st2.
      split; [now right | assumption]. }
    destruct r as [c|]; simpl.
    + exists (c :: built). split; [now rewrite <- app_assoc|].
      constructor; [|assumption]. exists m, st, st1. split; [now left|auto].
    + exists built. auto.
Qed.

Lemma Forall2_built {A B : Type} (R : A -> B -> Prop) (xs : list A)
    (ys : list B) :
  Forall2 R xs ys -> Forall (fun y => exists x, In x xs /\ R x y) ys.
Proof.
  induction 1 as [|x y xs ys Rxy _ IH]; constructor.
  - exists x. split; [now left | assumption].
  - eapply Forall_impl; [|exact IH]. intros b (a & I & Rab).
    exists a. split; [now right | assumption].
Qed.

Lemma endsNested_setLocation (l : option Segment) (n : ASTNode) :
  endsNested (setLocation l n) = endsNested n.
Proof. destruct n; reflexivity. Qed.

(** X6. When no node of the graph ends after the node that contains it,
    the same holds of the tree the builder returns. *)
Theorem buildNode_endsNested (n : Yaml.YAMLNode) :
  graphEndsNested n = true ->
  forall p st node st',
    buildNode p n st = Normal (Some node, st') ->
    endsNested node = true.
Proof.
  induction n as [s e ms IH|s e k v IH|s e items IH|i|s e a|s e]
    using YAMLNode_induction; intros G p st node st' H; simpl in G.
  - apply buildNode_map in H as (properties & L & [= ->]).
    apply forEachMapping_built in L as (built & -> & F). simpl.
    apply forallb_forall. intros c Hc.
    rewrite Forall_forall in F, IH. rewrite forallb_forall in G.
    destruct (F c Hc) as (m & st0 & st1 & I & B).
    specialize (G m I). apply andb_true_iff in G as [Ge Gm].
    destruct (built_header _ _ _ _ _ B) as (_ & _ & E & _).
    rewrite E, Ge. simpl. eapply IH; eassumption.
  - apply buildNode_mapping in H as (vn & V & [= ->]). simpl.
    apply andb_true_iff in G as [Gk Gv]. rewrite Gk. simpl.
    rewrite endsNested_setLocation.
    destruct (header_setLocation (nameOf (Yaml.value k)) vn)
      as (_ & _ & _ & _ & E').
    rewrite E'. destruct v as [v|].
    + apply andb_true_iff in Gv as [Ge Gv].
      destruct (built_header _ _ _ _ _ V) as (_ & _ & E & _).
      rewrite E, Ge. simpl. eapply IH; eassumption.
    + destruct V as [_ ->]. simpl. now rewrite Z.leb_refl.
  - apply buildNode_sequence in H as (children & L & [= ->]).
    apply forEachItem_result in L as (built & -> & F & _). simpl.
    apply Forall2_built in F.
    apply forallb_forall. intros c Hc.
    rewrite Forall_forall in F, IH. rewrite forallb_forall in G.
    destruct (F c Hc) as (item & I & c0 & st0 & st1 & B & l & ->).
    apply whenPresent_built in B as (m & -> & B).
    specialize (G _ I). specialize (IH _ I). simpl in G, IH.
    apply andb_true_iff in G as [Ge Gm].
    destruct (built_header _ _ _ _ _ B) as (_ & _ & E & _).
    destruct (header_setLocation l c0) as (_ & _ & _ & _ & E').
    rewrite E', E, Ge, endsNested_setLocation. simpl.
    eapply IH; eassumption.
  - simpl in H. destruct (buildScalar_normal p i st) as (leaf & E & C & _).
    rewrite E in H. injection H as <- <-.
    destruct leaf; simpl in C; try discriminate; try reflexivity;
      subst; reflexivity.
  - discriminate.
  - discriminate.
Qed.

Lemma buildNode_endsNested_example : endsNested flowTree = true.
Proof.
  apply (buildNode_endsNested flowMapping eq_refl None O flowTree 7%nat).
  reflexivity.
Defined.

(** ** The parent back-references *)

Lemma forEachMapping_grows (build : Yaml.YAMLNode -> Build (option ASTNode))
    (mappings : list Yaml.YAMLNode) :
  Forall (fun m => forall st r st',
              build m st = Normal (r, st') -> (st <= st')%nat) mappings ->
  forall properties st out st',
    forEachMapping build mappings properties st = Normal (out, st') ->
    (st <= st')%nat.
Proof.
  induction 1 as [|m rest Hm _ IH]; intros properties st out st' H;
    simpl in H.
  - injection H as _ <-. lia.
  - apply bind_inv in H as (r & st1 & B & H).
    apply Hm in B. apply IH in H. lia.
Qed.

Lemma forEachItem_grows
    (build : option Yaml.YAMLNode -> Build (option ASTNode))
    (items : list (option Yaml.YAMLNode)) :
  Forall (fun item => forall st r st',
              build item st = Normal (r, st') -> (st <= st')%nat) items ->
  forall count children st out st',
    forEachItem build items count children st = Normal (out, st') ->
    (st <= st')%nat.
Proof.
  induction 1 as [|item rest Hm _ IH]; intros count children st out st' H;
    simpl in H.
  - injection H as _ <-. lia.
  - apply bind_inv in H as (r & st1 & B & H).
    destruct r as [c|]; [|discriminate].
    apply Hm in B. apply IH in H. lia.
Qed.

(** The builder only draws identities: the next free one never goes
    down. *)
Lemma buildNode_grows (n : Yaml.YAMLNode) :
  forall p st r st', buildNode p n st = Normal (r, st') -> (st <= st')%nat.
Proof.
  induction n as [s e ms IH|s e k v IH|s e items IH|i|s e a|s e]
    using YAMLNode_induction; intros p st r st' H.
  - apply buildNode_map in H as (properties & L & _).
    apply forEachMapping_grows in L; [lia|].
    eapply Forall_impl; [|exact IH]. intros m Hm st0 r0 st1. apply Hm.
  - apply buildNode_mapping in H as (vn & V & _).
    destruct v as [v|]; [apply IH in V; lia | destruct V; lia].
  - apply buildNode_sequence in H as (children & L & _).
    apply forEachItem_grows in L; [lia|].
    eapply Forall_impl; [|exact IH]. intros [m|] Hm st0 r0 st1; simpl.
    + apply Hm.
    + intros [= _ <-]. lia.
  - simpl in H. destruct (buildScalar_normal p i st) as (leaf & E & _).
    rewrite E in H. injection H as _ <-. lia.
  - simpl in H. injection H as _ <-. lia.
  - simpl in H. injection H as _ <-. lia.
Qed.

(** The builder has a node exactly for a node that is no reference. *)
Lemma buildNode_present (n : Yaml.YAMLNode) (p : option NodeId)
    (st st' : NodeId) (r : option ASTNode) :
  buildNode p n st = Normal (r, st') ->
  present n = match r with Some _ => true | None => false end.
Proof.
  destruct n as [s e ms|s e k v|s e items|i|s e a|s e]; intros H.
  - apply buildNode_map in H as (ps & _ & ->). reflexivity.
  - apply buildNode_mapping in H as (vn & _ & ->). reflexivity.
  - apply buildNode_sequence in H as (cs & _ & ->). reflexivity.
  - simpl in H. destruct (buildScalar_normal p i st) as (leaf & E & _).
    rewrite E in H. injection H as <- _. reflexivity.
  - simpl in H. injection H as <- _. reflexivity.
  - simpl in H. injection H as <- _. reflexivity.
Qed.

Lemma childOf_built (h : ASTHeader) (n : Yaml.YAMLNode) (st st' : NodeId)
    (c : ASTNode) :
  buildNode (Some (self h)) n st = Normal (Some c, st') ->
  childOf h c = true.
Proof.
  intros B. destruct (built_header _ _ _ _ _ B) as (P & _).
  unfold childOf. rewrite P. apply Nat.eqb_refl.
Qed.

Lemma parentsFollow_setLocation (l : option Segment) (n : Yaml.YAMLNode)
    (c : ASTNode) :
  parentsFollow n (setLocation l c) = parentsFollow n c.
Proof. destruct n, c; reflexivity. Qed.

Lemma childOf_setLocation (h : ASTHeader) (l : option Segment) (c : ASTNode) :
  childOf h (setLocation l c) = childOf h c.
Proof. destruct c; reflexivity. Qed.

Lemma forEachMapping_follow (h : ASTHeader) (mappings : list Yaml.YAMLNode) :
  Forall (fun m => forall p st node st',
              (forall i, p = Some i -> (i < st)%nat) ->
              buildNode p m st = Normal (Some node, st') ->
              parentsFollow m node = true) mappings ->
  forall properties st out st',
    (self h < st)%nat ->
    forEachMapping (buildNode (Some (self h))) mappings properties st
    = Normal (out, st') ->
    exists built,
      out = (properties ++ built)%list
      /\ followMappings parentsFollow h mappings built = true.
Proof.
  induction 1 as [|m rest Hm _ IH]; intros properties st out st' Fresh H;
    simpl in H.
  - injection H as <- _. exists []. now rewrite app_nil_r.
  - apply bind_inv in H as (r & st1 & B & H).
    pose proof (buildNode_grows _ _ _ _ _ B) as G.
    apply IH in H as (built & -> & F); [|lia].
    pose proof (buildNode_present _ _ _ _ _ B) as P.
    destruct r as [c|]; simpl.
    + exists (c :: built). split; [now rewrite <- app_assoc|].
      simpl. rewrite P, F, (childOf_built _ _ _ _ _ B).
      rewrite (Hm (Some (self h)) st c st1); [reflexivity| |exact B].
      intros i [= <-]. exact Fresh.
    + exists built. split; [reflexivity|]. simpl. now rewrite P.
Qed.

Lemma forEachItem_follow (h : ASTHeader)
    (items : list (option Yaml.YAMLNode)) :
  Forall (fun item =>
            match item with
            | Some m =>
                forall p st node st',
                  (forall i, p = Some i -> (i < st)%nat) ->
                  buildNode p m st = Normal (Some node, st') ->
                  parentsFollow m node = true
            | None => True
            end) items ->
  forall count children st out st',
    (self h < st)%nat ->
    forEachItem (whenPresent (buildNode (Some (self h)))) items count
      children st
    = Normal (out, st') ->
    exists built,
      out = (children ++ built)%list
      /\ followItems parentsFollow h items built = true.
Proof.
  induction 1 as [|item rest Hm _ IH];
    intros count children st out st' Fresh H; simpl in H.
  - injection H as <- _. exists []. now rewrite app_nil_r.
  - apply bind_inv in H as (r & st1 & B & H).
    destruct r as [c|]; [|discriminate].
    apply whenPresent_built in B as (m & -> & B).
    pose proof (buildNode_grows _ _ _ _ _ B) as G.
    apply IH in H as (built & -> & F); [|lia].
    exists (setLocation (Some (Index count)) c :: built).
    split; [now rewrite <- app_assoc|].
    simpl. rewrite F, childOf_setLocation, parentsFollow_setLocation.
    rewrite (childOf_built _ _ _ _ _ B).
    rewrite (Hm (Some (self h)) st c st1); [reflexivity| |exact B].
    intros i [= <-]. exact Fresh.
Qed.

(** X5. In the tree the builder returns, every node names the node that
    holds it as its parent: a property its object, an item its array, a
    key its property, and so does a value that is written out, also a
    [null] that is written out.  The one exception is the [null] leaf
    that stands for an elided value: it names the parent of its property,
    and not the property. *)
Theorem buildNode_parentsFollow (n : Yaml.YAMLNode) :
  forall p st node st',
    (forall i, p = Some i -> (i < st)%nat) ->
    buildNode p n st = Normal (Some node, st') ->
    parentsFollow n node = true.
Proof.
  induction n as [s e ms IH|s e k v IH|s e items IH|i|s e a|s e]
    using YAMLNode_induction; intros p st node st' Fresh H.
  - apply buildNode_map in H as (properties & L & [= ->]).
    apply (forEachMapping_follow
             {| self := st; parent := p; location := None;
                start := s; end_ := e |} ms IH) in L
      as (built & -> & F); [exact F | simpl; lia].
  - apply buildNode_mapping in H as (vn & V & [= ->]).
    cbn [parentsFollow]. unfold childOf at 1. simpl.
    rewrite Nat.eqb_refl. simpl.
    rewrite childOf_setLocation.
    destruct v as [v|].
    + rewrite parentsFollow_setLocation.
      rewrite (childOf_built
                 {| self := S st; parent := p; location := None;
                    start := Yaml.startPosition k; end_ := e |} _ _ _ _ V).
      simpl. apply (IH (Some (S st)) (S (S st)) vn st'); [|exact V].
      intros i [= <-]. lia.
    + destruct V as [_ ->]. unfold sameParent, childOf. simpl.
      destruct p as [i|]; [|reflexivity].
      rewrite Nat.eqb_refl. simpl.
      specialize (Fresh i eq_refl).
      destruct (Nat.eqb_spec i (S st)); [lia | reflexivity].
  - apply buildNode_sequence in H as (children & L & [= ->]).
    apply (forEachItem_follow
             {| self := st; parent := p; location := None;
                start := s; end_ := e |} items IH) in L
      as (built & -> & F); [exact F | simpl; lia].
  - simpl in H. revert H. unfold buildScalar.
    destruct (determineScalarType (Some i));
      destruct (Yaml.value i) as [text|]; unfold bind, lift, new, ret, throw;
      try discriminate; try (intros [= <- _]; reflexivity).
    + destruct (parseYamlBoolean text); [|discriminate].
      intros [= <- _]; reflexivity.
    + destruct (parseYamlInteger text); [|discriminate].
      intros [= <- _]; reflexivity.
    + destruct (parseYamlFloat text); [|discriminate].
      intros [= <- _]; reflexivity.
  - discriminate.
  - discriminate.
Qed.

Lemma buildNode_parentsFollow_example :
  exists object a ak av b bk bv st',
    buildNode None mapWithNulls O
    = Normal (Some (ObjectASTNode object
                      [PropertyASTNode a ak (NullASTNode av);
                       PropertyASTNode b bk (NullASTNode bv)]), st')
    /\ parentsFollow mapWithNulls
         (ObjectASTNode object
            [PropertyASTNode a ak (NullASTNode av);
             PropertyASTNode b bk (NullASTNode bv)]) = true
    /\ parent av = Some (self a)
    /\ parent bv = Some (self object)
    /\ parent b = Some (self object)
    /\ parentsFollow mapWithNulls
         (ObjectASTNode object
            [PropertyASTNode a ak (NullASTNode av);
             PropertyASTNode b bk
               (setParent (Some (self b)) (NullASTNode bv))]) = false
    /\ parentsFollow mapWithNulls
         (ObjectASTNode object
            [PropertyASTNode a ak
               (setParent (parent a) (NullASTNode av));
             PropertyASTNode b bk (NullASTNode bv)]) = false.
Proof.
  eexists _, _, _, _, _, _, _, _.
  split; [vm_compute; reflexivity|].
  split; [|repeat split].
  apply (buildNode_parentsFollow mapWithNulls None O _ 7%nat).
  - discriminate.
  - vm_compute. reflexivity.
Defined.

(** * Further properties of the scalar functions *)

Lemma digitValue_decimal (c : ascii) :
  isDigit c = true -> digitValue 10 c = Some (digit c).
Proof. intros H. unfold digit. char_tests. Qed.

Lemma digitValue_octal (c : ascii) :
  isOctal c = true -> digitValue 8 c = Some (digit c).
Proof. intros H. unfold digit. char_tests. Qed.

Lemma digitValue_hex (c : ascii) :
  isHex c = true -> digitValue 16 c = Some (digit c).
Proof. intros H. unfold digit. char_tests. Qed.

(** A run of digits is read to its end, and to the number it denotes. *)
Lemma readDigits_numeral (radix : Z) (p : ascii -> bool) :
  (forall c, p c = true -> digitValue radix c = Some (digit c)) ->
  forall s, allChars p s = true ->
  forall acc n,
    readDigits radix s acc n
    = (acc * radix ^ Z.of_nat (String.length s) + numeral radix s,
       (n + String.length s)%nat, "").
Proof.
  intros D s. induction s as [|c r IH]; intros A acc n.
  - simpl. rewrite Z.mul_1_r, Z.add_0_r, Nat.add_0_r. reflexivity.
  - simpl in A. apply andb_true_iff in A as [C R].
    cbn [readDigits]. rewrite (D c C), (IH R).
    cbn [String.length numeral]. rewrite Nat2Z.inj_succ, Z.pow_succ_r by lia.
    f_equal. f_equal; [ring | lia].
Qed.

Lemma digits_head (c : ascii) (r : string) :
  allChars isDigit (String c r) = true ->
  trimStart (String c r) = String c r
  /\ stripSign (String c r) = (false, String c r)
  /\ stripHexPrefix (String c r) = None
  /\ startsWith "0o" (String c r) = false.
Proof.
  simpl. intros A. apply andb_true_iff in A as [C R].
  apply allChars_head in R.
  pose proof (digit_not_space _ (isDigit_isHex _ C)) as W.
  destruct (digit_not_sign _ (isDigit_isHex _ C)) as [M P].
  rewrite W. unfold stripSign. rewrite M, P.
  repeat split.
  - unfold stripHexPrefix. destruct r as [|d r]; [reflexivity|].
    rewrite (isDigit_not_x _ R). now rewrite andb_false_r.
  - destruct r as [|d r]; [now rewrite andb_false_r|].
    pose proof (isDigit_not_o _ R) as O. unfold is_char in O.
    rewrite O. now rewrite andb_false_r.
Qed.

Lemma parseInt_decimal (c : ascii) (r : string) :
  allChars isDigit (String c r) = true ->
  parseInt (String c r) None
  = NumberOfInteger false (numeral 10 (String c r))
  /\ parseInt ("+" ++ String c r) None
     = NumberOfInteger false (numeral 10 (String c r))
  /\ parseInt ("-" ++ String c r) None
     = NumberOfInteger true (- numeral 10 (String c r)).
Proof.
  intros A. destruct (digits_head c r A) as (T & G & X & _).
  assert (Body : forall neg : bool,
             (let sign := if neg then -1 else 1 in
              let R := 0 in
              if negb (R =? 0) && ((R <? 2) || (36 <? R)) then NaN
              else
                let '(R, s) :=
                  if (R =? 0) || (R =? 16) then
                    match stripHexPrefix (String c r) with
                    | Some rest => (16, rest)
                    | None => ((if R =? 0 then 10 else R), String c r)
                    end
                  else (R, String c r) in
                let '(v, n, _) := readDigits R s 0 O in
                match n with
                | O => NaN
                | S _ => NumberOfInteger neg (sign * v)
                end)
             = NumberOfInteger neg
                 ((if neg then -1 else 1) * numeral 10 (String c r))).
  { intros neg. cbv beta iota zeta.
    change (negb (0 =? 0) && ((0 <? 2) || (36 <? 0))) with false.
    change ((0 =? 0) || (0 =? 16)) with true. cbv iota.
    rewrite X. change (0 =? 0) with true. cbv beta iota.
    rewrite (readDigits_numeral 10 isDigit digitValue_decimal _ A 0 O).
    cbn [String.length Nat.add]. now rewrite Z.mul_0_l, Z.add_0_l. }
  unfold parseInt. split; [|split].
  - rewrite T, G. etransitivity; [exact (Body false)|].
    now rewrite Z.mul_1_l.
  - change (trimStart ("+" ++ String c r)) with (String "+" (String c r)).
    change (stripSign (String "+" (String c r))) with (false, String c r).
    etransitivity; [exact (Body false)|]. now rewrite Z.mul_1_l.
  - change (trimStart ("-" ++ String c r)) with (String "-" (String c r)).
    change (stripSign (String "-" (String c r))) with (true, String c r).
    etransitivity; [exact (Body true)|]. f_equal; lia.
Qed.

Lemma parseInt_octal (c : ascii) (r : string) :
  allChars isOctal (String c r) = true ->
  parseInt (String c r) (Some 8)
  = NumberOfInteger false (numeral 8 (String c r)).
Proof.
  intros A. pose proof A as A'. simpl in A'.
  apply andb_true_iff in A' as [C R].
  pose proof (isDigit_isHex _ (isOctal_isDigit _ C)) as X.
  pose proof (digit_not_space _ X) as W.
  destruct (digit_not_sign _ X) as [M P].
  unfold parseInt.
  rewrite (trimStart_head _ _ W), (stripSign_head _ _ M P).
  cbv beta iota zeta.
  change (negb (8 =? 0) && ((8 <? 2) || (36 <? 8))) with false.
  change ((8 =? 0) || (8 =? 16)) with false. cbv iota.
  rewrite (readDigits_numeral 8 isOctal digitValue_octal (String c r) A 0 O).
  cbn [String.length Nat.add]. now rewrite Z.mul_0_l, Z.add_0_l, Z.mul_1_l.
Qed.

Lemma parseInt_hex (c : ascii) (r : string) :
  allChars isHex (String c r) = true ->
  parseInt ("0x" ++ String c r) None
  = NumberOfInteger false (numeral 16 (String c r)).
Proof.
  intros A. unfold parseInt.
  change (trimStart ("0x" ++ String c r))
    with (String "0" (String "x" (String c r))).
  change (stripSign (String "0" (String "x" (String c r))))
    with (false, String "0" (String "x" (String c r))).
  cbv beta iota zeta.
  change (negb (0 =? 0) && ((0 <? 2) || (36 <? 0))) with false.
  change ((0 =? 0) || (0 =? 16)) with true. cbv iota.
  change (stripHexPrefix (String "0" (String "x" (String c r))))
    with (Some (String c r)).
  cbv beta iota.
  rewrite (readDigits_numeral 16 isHex digitValue_hex (String c r) A 0 O).
  cbn [String.length Nat.add]. now rewrite Z.mul_0_l, Z.add_0_l, Z.mul_1_l.
Qed.

Lemma parseYamlInteger_number (input : string) (v : JSNumber) :
  safeParseYamlInteger input = v -> isNaN v = false ->
  parseYamlInteger input = Normal v.
Proof.
  intros E N. unfold parseYamlInteger. rewrite E. cbv zeta. now rewrite N.
Qed.

(** *** Integers below [2^53] are numbers as they are *)

Lemma digits2_pos_bounds (p : positive) :
  2 ^ (Z.pos (SpecFloat.digits2_pos p) - 1) <= Z.pos p
  < 2 ^ Z.pos (SpecFloat.digits2_pos p).
Proof.
  induction p as [p IH|p IH|]; cbn [SpecFloat.digits2_pos];
    [| |simpl; lia];
    rewrite Pos2Z.inj_succ;
    replace (Z.succ (Z.pos (SpecFloat.digits2_pos p)) - 1)
      with (Z.succ (Z.pos (SpecFloat.digits2_pos p) - 1)) by lia;
    rewrite !Z.pow_succ_r by lia; lia.
Qed.

Lemma iter_xO_value (p k : positive) :
  Z.pos (Pos.iter xO p k) = Z.pos p * 2 ^ Z.pos k.
Proof.
  induction k as [|k IH] using Pos.peano_ind.
  - simpl. lia.
  - rewrite Pos.iter_succ, Pos2Z.inj_succ, Z.pow_succ_r by lia.
    rewrite Pos2Z.inj_xO, IH. ring.
Qed.

Lemma iter_xO_digits (p k : positive) :
  SpecFloat.digits2_pos (Pos.iter xO p k)
  = (SpecFloat.digits2_pos p + k)%positive.
Proof.
  induction k as [|k IH] using Pos.peano_ind.
  - simpl. lia.
  - rewrite Pos.iter_succ. cbn [SpecFloat.digits2_pos]. rewrite IH. lia.
Qed.

(** A mantissa of 53 digits with an exponent in range is not rounded. *)
Lemma binary_round_aux_canonical (s : bool) (m : positive) (e : Z) :
  SpecFloat.digits2_pos m = 53%positive -> -1074 <= e <= 971 ->
  SpecFloat.binary_round_aux prec emax s (Z.pos m) e SpecFloat.loc_Exact
  = SpecFloat.S754_finite s m e.
Proof.
  intros D E.
  assert (X : SpecFloat.fexp prec emax (Z.pos 53 + e) - e = 0).
  { unfold SpecFloat.fexp, SpecFloat.emin, prec, emax. lia. }
  unfold SpecFloat.binary_round_aux, SpecFloat.shr_fexp.
  cbn [SpecFloat.Zdigits2 SpecFloat.shr_record_of_loc]. rewrite D, X.
  cbn [SpecFloat.shr SpecFloat.shr_m SpecFloat.loc_of_shr_record
       SpecFloat.round_nearest_even SpecFloat.Zdigits2
       SpecFloat.shr_record_of_loc].
  rewrite D, X. cbn [SpecFloat.shr SpecFloat.shr_m].
  unfold prec, emax. destruct (Z.leb_spec e (1024 - 53)); [reflexivity | lia].
Qed.

Lemma binary_round_exact (s : bool) (p : positive) :
  Z.pos p < 2 ^ 53 ->
  exists m e,
    SpecFloat.binary_round prec emax s p 0 = SpecFloat.S754_finite s m e
    /\ e <= 0 /\ Z.pos m = Z.pos p * 2 ^ (- e).
Proof.
  intros B. pose proof (digits2_pos_bounds p) as [Lo _].
  assert (D : Z.pos (SpecFloat.digits2_pos p) <= 53).
  { destruct (Z.le_gt_cases (Z.pos (SpecFloat.digits2_pos p)) 53) as [L|G];
      [exact L|].
    assert (2 ^ 53 <= 2 ^ (Z.pos (SpecFloat.digits2_pos p) - 1))
      by (apply Z.pow_le_mono_r; lia).
    lia. }
  unfold SpecFloat.binary_round, SpecFloat.shl_align.
  assert (X : SpecFloat.fexp prec emax (Z.pos (SpecFloat.digits2_pos p) + 0) - 0
              = Z.pos (SpecFloat.digits2_pos p) - 53).
  { unfold SpecFloat.fexp, SpecFloat.emin, prec, emax. lia. }
  rewrite X.
  destruct (Z.pos (SpecFloat.digits2_pos p) - 53) as [|k|k] eqn:K; [|lia|].
  - exists p, 0. split; [|split; [lia | simpl; lia]].
    apply binary_round_aux_canonical; [|lia].
    apply Pos2Z.inj. lia.
  - exists (Pos.iter xO p k), (SpecFloat.fexp prec emax
                                 (Z.pos (SpecFloat.digits2_pos p) + 0)).
    assert (F : SpecFloat.fexp prec emax (Z.pos (SpecFloat.digits2_pos p) + 0)
                = Z.neg k) by lia.
    rewrite F. split; [|split; [lia|]].
    + apply binary_round_aux_canonical; [|lia].
      rewrite iter_xO_digits. apply Pos2Z.inj.
      rewrite Pos2Z.inj_add. lia.
    + rewrite iter_xO_value. reflexivity.
Qed.

Lemma NumberOfInteger_exact (negative : bool) (n : Z) :
  Z.abs n < 2 ^ 53 -> exactly n (NumberOfInteger negative n).
Proof.
  intros B. unfold NumberOfInteger, SpecFloat.binary_normalize.
  destruct n as [|p|p].
  - reflexivity.
  - destruct (binary_round_exact false p B) as (m & e & -> & E & V).
    simpl. auto.
  - destruct (binary_round_exact true p B) as (m & e & -> & E & V).
    split; [exact E|]. change (- Z.pos m = - Z.pos p * 2 ^ (- e)).
    rewrite V. ring.
Qed.

(** X7. [parseYamlInteger] reads a literal in the radix its spelling
    announces and returns the number nearest to it: a run of decimal
    digits, bare or signed, is read in radix ten (a leading zero does not
    make it octal); [0o] and octal digits in radix eight; [0x] and
    hexadecimal digits in radix sixteen.  An integer below [2^53] in
    magnitude is returned as it is; a larger one is rounded. *)
Theorem parseYamlInteger_value (digits : string) :
  digits <> "" ->
  (allChars isDigit digits = true ->
     parseYamlInteger digits
     = Normal (NumberOfInteger false (numeral 10 digits))
     /\ parseYamlInteger ("+" ++ digits)
        = Normal (NumberOfInteger false (numeral 10 digits))
     /\ parseYamlInteger ("-" ++ digits)
        = Normal (NumberOfInteger true (- numeral 10 digits)))
  /\ (allChars isOctal digits = true ->
        parseYamlInteger ("0o" ++ digits)
        = Normal (NumberOfInteger false (numeral 8 digits)))
  /\ (allChars isHex digits = true ->
        parseYamlInteger ("0x" ++ digits)
        = Normal (NumberOfInteger false (numeral 16 digits)))
  /\ (forall negative n,
        Z.abs n < 2 ^ 53 -> exactly n (NumberOfInteger negative n)).
Proof.
  intros N. destruct digits as [|c r]; [congruence|]. clear N.
  split; [|split; [|split]]; [intros A|intros A|intros A|].
  - destruct (digits_head c r A) as (_ & _ & _ & Oc).
    destruct (parseInt_decimal c r A) as (U & P & M).
    split; [|split]; apply parseYamlInteger_number;
      try apply NumberOfInteger_number;
      unfold safeParseYamlInteger, String_lastIndexOf0.
    + now rewrite Oc.
    + exact P.
    + exact M.
  - apply parseYamlInteger_number; [|apply NumberOfInteger_number].
    unfold safeParseYamlInteger, String_lastIndexOf0.
    change (startsWith "0o" ("0o" ++ String c r)) with true.
    cbv beta iota. change (0 =? 0) with true. cbv iota.
    change (substring_from 2 ("0o" ++ String c r)) with (String c r).
    now apply parseInt_octal.
  - apply parseYamlInteger_number; [|apply NumberOfInteger_number].
    unfold safeParseYamlInteger, String_lastIndexOf0.
    change (startsWith "0o" ("0x" ++ String c r)) with false.
    cbv beta iota. change (-1 =? 0) with false. cbv iota.
    now apply parseInt_hex.
  - intros negative n. apply NumberOfInteger_exact.
Qed.

Lemma parseYamlInteger_value_example :
  parseYamlInteger "010" = Normal (NumberOfInteger false 10)
  /\ exactly 10 (NumberOfInteger false 10)
  /\ parseYamlInteger "-42" = Normal (NumberOfInteger true (-42))
  /\ parseYamlInteger "0o17" = Normal (NumberOfInteger false 15)
  /\ parseYamlInteger "0x1F" = Normal (NumberOfInteger false 31)
  /\ parseYamlInteger "9007199254740993"
     = Normal (NumberOfInteger false 9007199254740993)
  /\ NumberOfInteger false 9007199254740993
     = NumberOfInteger false 9007199254740992
  /\ parseYamlInteger "-0" = Normal (SpecFloat.S754_zero true).
Proof.
  assert (N : forall c r, String c r <> "") by discriminate.
  destruct (parseYamlInteger_value "010" (N _ _)) as (D & _ & _ & X).
  destruct (parseYamlInteger_value "42" (N _ _)) as (D' & _).
  destruct (parseYamlInteger_value "17" (N _ _)) as (_ & O & _).
  destruct (parseYamlInteger_value "1F" (N _ _)) as (_ & _ & H & _).
  destruct (parseYamlInteger_value "9007199254740993" (N _ _)) as (B & _).
  destruct (parseYamlInteger_value "0" (N _ _)) as (Z & _).
  split; [exact (proj1 (D eq_refl))|].
  split; [apply X; reflexivity|].
  split; [exact (proj2 (proj2 (D' eq_refl)))|].
  split; [exact (O eq_refl)|]. split; [exact (H eq_refl)|].
  split; [exact (proj1 (B eq_refl))|]. split; [reflexivity|].
  exact (proj2 (proj2 (Z eq_refl))).
Defined.

Lemma spellings_not_numeric (text : string) :
  In text (nullSpellings ++ trueSpellings ++ falseSpellings) ->
  (test base10 text || test base8 text || test base16 text) = false
  /\ (test float text || test infinity text
      || (0 <=? indexOf nanSpellings (Some text))) = false.
Proof.
  simpl. intros H.
  repeat (destruct H as [<-|H]; [split; reflexivity|]). destruct H.
Qed.

(** X8. For a plain scalar the numeric rules apply in order: a text that
    matches the decimal, the octal or the hexadecimal literal is an [int],
    also when it matches the float literal as well; a text that matches
    none of them but the float literal, an infinity or a NaN spelling is a
    [float]; and these are the only texts with these types. *)
Theorem determineScalarType_numeric (node : Yaml.YAMLScalar) (text : string) :
  isPlain node = true ->
  Yaml.value node = Some text ->
  let intLiteral := test base10 text || test base8 text || test base16 text in
  let floatLiteral :=
    test float text || test infinity text
    || (0 <=? indexOf nanSpellings (Some text)) in
  (determineScalarType (Some node) = ScalarType.int <-> intLiteral = true)
  /\ (determineScalarType (Some node) = ScalarType.float <->
        intLiteral = false /\ floatLiteral = true)
  /\ (determineScalarType (Some node) = ScalarType.string <->
        intLiteral = false /\ floatLiteral = false
        /\ ~ In text (nullSpellings ++ trueSpellings ++ falseSpellings)).
Proof.
  intros P V. cbv zeta. rewrite (determineScalarType_plain _ P), V.
  pose proof (spellings_not_numeric text) as S.
  destruct (0 <=? indexOf nullSpellings (Some text)) eqn:N.
  - apply indexOf_found in N.
    destruct S as [Si Sf]; [apply in_or_app; auto|]. rewrite Si, Sf.
    split; [split; discriminate|]. split; [split; [discriminate|]|].
    + intros [_ H]; discriminate.
    + split; [discriminate|]. intros (_ & _ & H). exfalso. apply H.
      apply in_or_app. auto.
  - apply indexOf_missing in N.
    destruct (0 <=? indexOf (trueSpellings ++ falseSpellings) (Some text))
      eqn:B.
    + apply indexOf_found in B.
      destruct S as [Si Sf]; [apply in_or_app; auto|]. rewrite Si, Sf.
      split; [split; discriminate|]. split; [split; [discriminate|]|].
      * intros [_ H]; discriminate.
      * split; [discriminate|]. intros (_ & _ & H). exfalso. apply H.
        apply in_or_app. auto.
    + apply indexOf_missing in B. clear S.
      destruct (test base10 text || test base8 text || test base16 text).
      * split; [split; reflexivity|]. split; split; try discriminate.
        -- intros [H _]; discriminate.
        -- intros (H & _); discriminate.
      * destruct (test float text || test infinity text
                  || (0 <=? indexOf nanSpellings (Some text))).
        -- split; [split; discriminate|]. split; [split; auto|].
           split; [discriminate|]. intros (_ & H & _); discriminate.
        -- split; [split; discriminate|]. split.
           ++ split; [discriminate|]. intros [_ H]; discriminate.
           ++ split; [|reflexivity]. intros _. repeat split.
              intros H. apply in_app_or in H. tauto.
Qed.

Lemma determineScalarType_numeric_example :
  determineScalarType (Some (plain 0 2 "12")) = ScalarType.int
  /\ test float "12" = true
  /\ determineScalarType (Some (plain 0 3 "1e3")) = ScalarType.float
  /\ determineScalarType (Some (plain 0 3 "0o8")) = ScalarType.string.
Proof.
  destruct (determineScalarType_numeric (plain 0 2 "12") "12" eq_refl eq_refl)
    as (I & _).
  destruct (determineScalarType_numeric (plain 0 3 "1e3") "1e3" eq_refl eq_refl)
    as (_ & F & _).
  destruct (determineScalarType_numeric (plain 0 3 "0o8") "0o8" eq_refl eq_refl)
    as (_ & _ & S).
  split; [apply I; reflexivity|]. split; [reflexivity|].
  split; [apply F; split; reflexivity|].
  apply S. split; [reflexivity|]. split; [reflexivity|].
  simpl. intros H. repeat (destruct H as [H|H]; [discriminate|]). exact H.
Defined.

(** * Further properties of [parse] *)

(** X9. Every diagnostic [parse] takes over from the tokenizer keeps its
    message and gets a span that is never empty: it ends two characters
    before the end of the tokenizer's buffer and starts at the position of
    the diagnostic or, when that lies at or beyond the end, one character
    before the end.  On a buffer of just the two added characters (an
    empty text) the span therefore starts at [-1]. *)
Theorem parse_diagnostic_spans
    (safeLoad : string -> Completion (option Yaml.YAMLDocument))
    (text : string) (config : option JSONDocumentConfig)
    (yamlDoc : Yaml.YAMLDocument) (doc : JSONDocument) :
  safeLoad text = Normal (Some yamlDoc) ->
  parse safeLoad text config = Normal doc ->
  forall problem,
    In problem (warnings doc)
    \/ (In problem (errors doc)
        /\ problem <> expectedYaml (Yaml.node yamlDoc)) ->
    exists e,
      In e (Yaml.errors yamlDoc)
      /\ message problem = Yaml.message e
      /\ let bufferLength :=
           Z.of_nat (String.length (Yaml.buffer (Yaml.mark e))) - 2 in
         let position := Yaml.position (Yaml.mark e) in
         loc_end (problem_location problem) = bufferLength
         /\ loc_start (problem_location problem)
            < loc_end (problem_location problem)
         /\ (position < bufferLength ->
             loc_start (problem_location problem) = position)
         /\ (bufferLength <= position ->
             loc_start (problem_location problem) = bufferLength - 1)
         /\ (bufferLength = 0 -> 0 <= position ->
             loc_start (problem_location problem) = -1).
Proof.
  intros L H problem I.
  destruct (parse_fields safeLoad text config yamlDoc doc L H) as [E W].
  assert (X : exists e, In e (Yaml.errors yamlDoc)
                        /\ problem = convertError e).
  { destruct I as [I|[I N]].
    - rewrite W in I. apply in_map_iff in I as (e & <- & F).
      apply filter_In in F as [F _]. eauto.
    - rewrite E in I. apply in_app_or in I as [I|I].
      + destruct (root doc); [destruct I|].
        destruct I as [I|[]]. congruence.
      + apply in_map_iff in I as (e & <- & F).
        apply filter_In in F as [F _]. eauto. }
  destruct X as (e & Ie & ->).
  exists e. split; [assumption|]. split; [reflexivity|].
  cbv zeta. simpl. repeat split; lia.
Qed.

Lemma parse_diagnostic_spans_example :
  exists doc,
    parse (fun _ => Normal (Some unbalancedBracket)) "[" None = Normal doc
    /\ forall problem, In problem (errors doc) ->
         loc_start (problem_location problem)
         < loc_end (problem_location problem).
Proof.
  eexists. split; [vm_compute; reflexivity|].
  intros problem I.
  destruct (parse_diagnostic_spans
              (fun _ => Normal (Some unbalancedBracket)) "["
              None unbalancedBracket _ eq_refl eq_refl problem)
    as (e & _ & _ & _ & Lt & _).
  - right. split; [exact I|]. destruct I as [<-|[]]. discriminate.
  - exact Lt.
Defined.

(** X11. A scalar always yields a leaf, whose [type] follows the scalar
    type: a scalar that is not plain yields a [string] leaf with its text
    unchanged, whatever the text; a plain scalar without a text yields a
    [null] leaf; a number leaf is an integer exactly for the [int] type;
    and the value of a boolean or number leaf is what the matching parser
    returns for the text. *)
Theorem buildScalar_leaf (p : option NodeId) (instance : Yaml.YAMLScalar)
    (st : NodeId) :
  let h := {| self := st; parent := p; location := None;
              start := Yaml.startPosition instance;
              end_ := Yaml.endPosition instance |} in
  exists leaf,
    buildScalar p instance st = Normal (Some leaf, S st)
    /\ header leaf = h
    /\ type leaf = leafType (determineScalarType (Some instance))
    /\ (isPlain instance = false ->
        leaf = StringASTNode h false (Yaml.value instance))
    /\ (isPlain instance = true -> Yaml.value instance = None ->
        leaf = NullASTNode h)
    /\ (forall text, Yaml.value instance = Some text ->
        match determineScalarType (Some instance) with
        | ScalarType.null => leaf = NullASTNode h
        | ScalarType.bool =>
            exists b, parseYamlBoolean text = Normal b
                      /\ leaf = BooleanASTNode h b
        | ScalarType.int =>
            exists v, parseYamlInteger text = Normal v
                      /\ leaf = NumberASTNode h true v
        | ScalarType.float =>
            exists v, parseYamlFloat text = Normal v
                      /\ leaf = NumberASTNode h false v
        | ScalarType.string => leaf = StringASTNode h false (Some text)
        end).
Proof.
  cbv zeta. unfold buildScalar.
  destruct (isPlain instance) eqn:P.
  - rewrite (determineScalarType_plain _ P).
    destruct (Yaml.value instance) as [text|].
    + destruct (0 <=? indexOf nullSpellings (Some text)).
      { eexists. split; [reflexivity|]. repeat split; try discriminate;
          try (intros t [= <-]; reflexivity). }
      destruct (0 <=? indexOf (trueSpellings ++ falseSpellings) (Some text))
        eqn:B.
      { destruct (parseYamlBoolean_accepts _ B) as [b E].
        unfold bind, lift. rewrite E. eexists. split; [reflexivity|].
        repeat split; try discriminate;
          try (intros t [= <-]; eauto). }
      destruct (test base10 text || test base8 text || test base16 text)
        eqn:I.
      { destruct (parseYamlInteger_accepts _ I) as [q E].
        unfold bind, lift, new. rewrite E. eexists. split; [reflexivity|].
        repeat split; try discriminate;
          try (intros t [= <-]; eauto). }
      destruct (test float text || test infinity text
                || (0 <=? indexOf nanSpellings (Some text))) eqn:F.
      { destruct (parseYamlFloat_accepts _ F) as [v E].
        unfold bind, lift, new. rewrite E. eexists. split; [reflexivity|].
        repeat split; try discriminate;
          try (intros t [= <-]; eauto). }
      eexists. split; [reflexivity|]. repeat split; try discriminate;
        try (intros t [= <-]; reflexivity).
    + eexists. split; [reflexivity|]. repeat split; discriminate.
  - rewrite (determineScalarType_not_plain _ P).
    eexists. split; [reflexivity|]. repeat split; try discriminate;
      try (intros t ->; reflexivity).
Qed.
